(** * Sales Proposal Automation System: the diagram and composition core

    A shallow embedding of the functions of [src/main.py] that the
    specification makes checkable statements about, and the theorems that
    settle those statements.

    Conventions of the embedding:
    - a Python [str] is a Rocq [string]; the text functions ([lower],
      [strip], the regular expressions) are modelled on ASCII text, where a
      character outside [A-Z] is its own lower case; the markup of an
      exported diagram, which may hold any character, is the list of its
      code points;
    - [bytes] is a [list byte];
    - a timestamp is a rational number of seconds;
    - a function that can raise returns a [result]; code that talks to the
      outside world (HTTP, the generative service, the browser) runs in the
      monad [M], whose state is the world the function talks to, and a
      [try .. except Exception] block is [try_except];
    - the outside world is an oracle held in that state, together with the
      log of the calls made to it. *)

From Stdlib Require Import String Ascii List Bool Arith NArith ZArith Lia.
From Stdlib.Strings Require Import Byte.
From Stdlib Require Import Permutation QArith Qround.
Import ListNotations.
Close Scope Q_scope.
Local Open Scope string_scope.
Local Open Scope list_scope.

Set Implicit Arguments.

(* ===================================================================== *)
(** * Python values, exceptions and the effect monad                       *)
(* ===================================================================== *)

Module Py.

(** The exception classes the program raises or tells apart. *)
Inductive exn : Type :=
| ValueError (msg : string)
| RuntimeError (msg : string)
| FileNotFoundError (msg : string)
| Exception (msg : string).

(** [str(e)] *)
Definition str_of_exn (e : exn) : string :=
  match e with
  | ValueError m | RuntimeError m | FileNotFoundError m | Exception m => m
  end.

Inductive result (A : Type) : Type :=
| Ok (a : A)
| Raise (e : exn).
Arguments Ok {A} a.
Arguments Raise {A} e.

(** State and exceptions: the state survives a raised exception, as the
    effects of a Python call do. *)
Definition M (S A : Type) : Type := S -> result A * S.

Definition ret {S A} (a : A) : M S A := fun s => (Ok a, s).

Definition bind {S A B} (m : M S A) (k : A -> M S B) : M S B :=
  fun s =>
    match m s with
    | (Ok a, s') => k a s'
    | (Raise e, s') => (Raise e, s')
    end.

Definition raise {S A} (e : exn) : M S A := fun s => (Raise e, s).

(** [try: m  except Exception as e: h e] *)
Definition try_except {S A} (m : M S A) (h : exn -> M S A) : M S A :=
  fun s =>
    match m s with
    | (Ok a, s') => (Ok a, s')
    | (Raise e, s') => h e s'
    end.

Definition get {S} : M S S := fun s => (Ok s, s).
Definition modify {S} (f : S -> S) : M S unit := fun s => (Ok tt, f s).

(** Truthiness of the values the program tests with [if x:] / [x or y]. *)
Definition truthy_str (s : string) : bool :=
  match s with EmptyString => false | _ => true end.

Definition truthy_list {A} (l : list A) : bool :=
  match l with [] => false | _ => true end.

(** [x or d] on an [Optional[str]] *)
Definition or_str (x : option string) (d : string) : string :=
  match x with
  | Some s => if truthy_str s then s else d
  | None => d
  end.

End Py.

Declare Scope py_scope.
Delimit Scope py_scope with py.
Notation "x <- m ;; k" := (Py.bind m (fun x => k))
  (at level 61, m at next level, right associativity) : py_scope.
Notation "m ;;; k" := (Py.bind m (fun _ => k))
  (at level 61, right associativity) : py_scope.

(* ===================================================================== *)
(** * Text: the [str] methods the program uses                             *)
(* ===================================================================== *)

Module Text.

Definition is_upper (c : ascii) : bool :=
  (Ascii.leb "A" c && Ascii.leb c "Z")%bool.

Definition lower_char (c : ascii) : ascii :=
  if is_upper c then ascii_of_nat (nat_of_ascii c + 32) else c.

(** [s.lower()] *)
Fixpoint lower (s : string) : string :=
  match s with
  | EmptyString => EmptyString
  | String c t => String (lower_char c) (lower t)
  end.

(** [s.startswith(p)] *)
Fixpoint startswith (s p : string) {struct p} : bool :=
  match p, s with
  | EmptyString, _ => true
  | String _ _, EmptyString => false
  | String a p', String b s' => (Ascii.eqb a b && startswith s' p')%bool
  end.

(** [k in s] on strings: [k] occurs as a contiguous substring of [s]. *)
Fixpoint contains (k s : string) : bool :=
  (startswith s k ||
   match s with
   | EmptyString => false
   | String _ t => contains k t
   end)%bool.

(** [any(k in s for k in ks)] *)
Definition any_in (ks : list string) (s : string) : bool :=
  existsb (fun k => contains k s) ks.

(** [c.isspace()], which is also the class [\s] of the regular
    expressions: tab, newline, vertical tab, form feed, carriage return, the
    four separators 28..31 and the space. *)
Definition is_space (c : ascii) : bool :=
  let n := nat_of_ascii c in
  (Nat.leb 9 n && Nat.leb n 13 || Nat.leb 28 n && Nat.leb n 32)%bool.

(** No whitespace among the characters of [p]. *)
Fixpoint no_space (p : string) : bool :=
  match p with
  | EmptyString => true
  | String a p' => (negb (is_space a) && no_space p')%bool
  end.

(** [s.lstrip()] *)
Fixpoint lstrip (s : string) : string :=
  match s with
  | EmptyString => EmptyString
  | String c t => if is_space c then lstrip t else s
  end.

(** [s.rstrip()] *)
Fixpoint rstrip (s : string) : string :=
  match s with
  | EmptyString => EmptyString
  | String c t =>
      match rstrip t with
      | EmptyString => if is_space c then EmptyString else String c EmptyString
      | t' => String c t'
      end
  end.

(** [s.strip()] *)
Definition strip (s : string) : string := rstrip (lstrip s).

(** [sep.join(parts)] *)
Fixpoint join (sep : string) (parts : list string) : string :=
  match parts with
  | [] => EmptyString
  | [x] => x
  | x :: rest => (x ++ sep ++ join sep rest)%string
  end.

Definition nl : string := String (ascii_of_nat 10) EmptyString.

(** The rest of [s] after the literal [p], when [s] starts with [p]. *)
Fixpoint after_prefix (p s : string) {struct p} : option string :=
  match p, s with
  | EmptyString, _ => Some s
  | String _ _, EmptyString => None
  | String a p', String b s' => if Ascii.eqb a b then after_prefix p' s' else None
  end.

(** [s[n:]] *)
Fixpoint skip (n : nat) (s : string) : string :=
  match n, s with
  | O, _ => s
  | S _, EmptyString => EmptyString
  | S m, String _ t => skip m t
  end.

(** The mathematical reading of [k in s]. *)
Definition Substring (k s : string) : Prop :=
  exists pre post, s = (pre ++ k ++ post)%string.

End Text.

(* ===================================================================== *)
(** * Style-class inference from a node label                              *)
(* ===================================================================== *)

Module InferClass.
Import Text.

Definition reject_keywords : list string :=
  ["reject"; "rejection"; "fail"; "error"; "technical"; "rts";
   "return to sender"].

Definition accept_keywords : list string :=
  ["accept"; "approved"; "success"; "output"; "dispatch"].

Definition main_keywords : list string :=
  ["infeed"; "volume distribution"; "vds"; "induct"; "sorter"; "cbs";
   "swedi"; "scanning"; "print & apply"; "dimension"; "weigh"].

Definition _infer_class (label : string) : string :=
  let L := lower label in
  if any_in reject_keywords L then "reject"
  else if any_in accept_keywords L then "accept"
  else if any_in main_keywords L then "main"
  else "sub".

(** Some keyword of the table occurs in the text. *)
Definition Mentions (ks : list string) (s : string) : Prop :=
  exists k, In k ks /\ Substring k s.

End InferClass.

(* ===================================================================== *)
(** * Document composition                                                 *)
(* ===================================================================== *)

Module Docx.
Import Py.

(** [docx.enum.text.WD_BREAK] *)
Inductive WD_BREAK : Type := LINE | PAGE | COLUMN.

Inductive run_item : Type :=
| Text (s : string)
| Break (k : WD_BREAK).

Definition Run : Type := list run_item.

(** A block-level element of the document body. *)
Inductive block : Type :=
| Paragraph (runs : list Run)
| Table (rows : list (list string)).

(** A document as python-docx sees it: the block elements of its body,
    in order. *)
Record Document : Type := { body : list block }.

(** An [io.BytesIO] that holds a saved .docx package, given by the
    document it decodes to (the program only passes on buffers that
    [doc.save] wrote). *)
Inductive BytesIO : Type := Saved (d : Document).

(** [Document(buf)] *)
Definition open_document (buf : BytesIO) : Document :=
  match buf with Saved d => d end.

(** [l[i] = f(l[i])]; the program only uses indices it has just made. *)
Fixpoint alter {A} (f : A -> A) (i : nat) (l : list A) : list A :=
  match l, i with
  | [], _ => []
  | x :: t, O => f x :: t
  | x :: t, S j => x :: alter f j t
  end.

(** python-docx hands out proxies to the element it appended; here a
    proxy is the index of the element. *)

(** [doc.add_paragraph()]: a new empty paragraph at the end of the body. *)
Definition add_paragraph (doc : Document) : Document * nat :=
  ({| body := body doc ++ [Paragraph []] |}, length (body doc)).

Definition runs_of (b : block) : list Run :=
  match b with Paragraph rs => rs | Table _ => [] end.

(** [p.add_run()]: a new empty run at the end of paragraph [p]. *)
Definition add_run (doc : Document) (p : nat) : Document * nat :=
  ({| body := alter (fun b => match b with
                              | Paragraph rs => Paragraph (rs ++ [[]])
                              | other => other
                              end) p (body doc) |},
   length (runs_of (nth p (body doc) (Table [])))).

(** [r.add_break(kind)]: a break at the end of run [r] of paragraph [p]. *)
Definition add_break (doc : Document) (p r : nat) (kind : WD_BREAK) : Document :=
  {| body := alter (fun b => match b with
                             | Paragraph rs =>
                                 Paragraph (alter (fun run => run ++ [Break kind]) r rs)
                             | other => other
                             end) p (body doc) |}.

Definition _add_page_break (doc : Document) : Document :=
  let '(doc, p) := add_paragraph doc in
  let '(doc, r) := add_run doc p in
  add_break doc p r PAGE.

(** [docxcompose.composer.Composer]: the master document being extended. *)
Record Composer : Type := { doc : Document }.

(** [composer.append(d)]: the body elements of [d] follow the master's. *)
Definition append (c : Composer) (d : Document) : Composer :=
  {| doc := {| body := body (doc c) ++ body d |} |}.

(** [composer.save(buf)] *)
Definition save (c : Composer) : BytesIO := Saved (doc c).

(** One turn of [for buf in buffers_list[1:]]. *)
Definition merge_step (composer : Composer) (buf : option BytesIO) : Composer :=
  match buf with
  | None => composer
  | Some b =>
      let composer := {| doc := _add_page_break (doc composer) |} in
      let doc_to_append := open_document b in
      append composer doc_to_append
  end.

Definition merge_docx_files_with_page_breaks
    (buffers_list : list (option BytesIO)) : result BytesIO :=
  match buffers_list with
  | [] | None :: _ =>
      Raise (ValueError
        "At least one valid document buffer is required as base document.")
  | Some b0 :: rest =>
      let base_doc := open_document b0 in
      let composer := {| doc := base_doc |} in
      let composer := fold_left merge_step rest composer in
      Ok (save composer)
  end.

(** The paragraph [_add_page_break] leaves at the end of the body. *)
Definition page_break_paragraph : block := Paragraph [[Break PAGE]].

Definition is_page_break (b : block) : bool :=
  match b with
  | Paragraph [[Break PAGE]] => true
  | _ => false
  end.

(** How many page-break paragraphs a body holds. *)
Definition page_breaks (d : Document) : nat :=
  length (filter is_page_break (body d)).

(** The fragments that are there, in the listed order. *)
Fixpoint present (l : list (option BytesIO)) : list BytesIO :=
  match l with
  | [] => []
  | None :: t => present t
  | Some b :: t => b :: present t
  end.

Definition to_buffers (ds : list Document) : list (option BytesIO) :=
  map (fun d => Some (Saved d)) ds.

End Docx.

(* ===================================================================== *)
(** * Diagram rendering: the fallback chain                                *)
(* ===================================================================== *)

Module Renderer.
Import Py.

Definition bytes : Type := list Byte.byte.

(** [requests.Response], as far as the program looks at it. *)
Record Response : Type := { ok : bool; content : bytes }.

(** The four HTTP requests of [mermaid_to_png_via_kroki]: POST to
    [<kroki>/mermaid/png] and [<kroki>/mermaid/svg], GET of
    [https://mermaid.ink/img/<code>] and [https://mermaid.ink/svg/<code>]. *)
Inductive endpoint : Type := KrokiPng | KrokiSvg | InkPng | InkSvg.

(** What the renderer asked of the outside world. *)
Inductive call : Type :=
| Http (e : endpoint) (mermaid_code : string)
| Cairo (svg : bytes)
| Chrome (mermaid_code : string).

(** The outside world: which optional packages were importable, and what
    each external call does (a timeout is a raised exception). *)
Record Env : Type := {
  HAS_REQUESTS : bool;
  HAS_CAIROSVG : bool;
  HAS_SELENIUM : bool;
  http : endpoint -> string -> result Response;
  svg2png : bytes -> result bytes;
  screenshot : string -> result bytes
}.

(** The state is the log of external calls, oldest first. *)
Definition IO : Type -> Type := M (list call).

Definition external {A} (c : call) (r : result A) : IO A :=
  fun log => (r, log ++ [c]).

Local Open Scope py_scope.

Section WithEnv.
Variable env : Env.

Definition truthy_bytes (b : bytes) : bool := truthy_list b.

Definition _svg_bytes_to_png (svg_bytes : bytes) : IO (option bytes) :=
  if negb (truthy_bytes svg_bytes) then ret None
  else if HAS_CAIROSVG env then
    try_except
      (png <- external (Cairo svg_bytes) (svg2png env svg_bytes) ;;
       ret (Some png))
      (fun _ => ret None)
  else ret None.

(** A [try] block that returns the raster body of the response. *)
Definition try_raster (e : endpoint) (mermaid_code : string) : IO (option bytes) :=
  try_except
    (r <- external (Http e mermaid_code) (http env e mermaid_code) ;;
     if (ok r && truthy_bytes (content r))%bool
     then ret (Some (content r)) else ret None)
    (fun _ => ret None).

(** A [try] block that rasterizes the vector body of the response. *)
Definition try_vector (e : endpoint) (mermaid_code : string) : IO (option bytes) :=
  try_except
    (r <- external (Http e mermaid_code) (http env e mermaid_code) ;;
     if (ok r && truthy_bytes (content r))%bool
     then
       png <- _svg_bytes_to_png (content r) ;;
       match png with
       | Some p => if truthy_bytes p then ret (Some p) else ret None
       | None => ret None
       end
     else ret None)
    (fun _ => ret None).

(** [a] if it returned from the function, otherwise go on with [b]. *)
Definition or_else (a b : IO (option bytes)) : IO (option bytes) :=
  r <- a ;;
  match r with
  | Some png => ret (Some png)
  | None => b
  end.

Definition mermaid_to_png_via_kroki (mermaid_code : string) : IO (option bytes) :=
  if (negb (HAS_REQUESTS env) || negb (truthy_str mermaid_code))%bool
  then ret None
  else
    or_else (try_raster KrokiPng mermaid_code)
   (or_else (try_vector KrokiSvg mermaid_code)
   (or_else (try_raster InkPng mermaid_code)
   (or_else (try_vector InkSvg mermaid_code)
            (ret None)))).

Definition mermaid_to_png_via_chrome (mermaid_code : string) : IO (option bytes) :=
  if negb (HAS_SELENIUM env && truthy_str mermaid_code)%bool then ret None
  else
    try_except
      (png <- external (Chrome mermaid_code) (screenshot env mermaid_code) ;;
       ret (Some png))
      (fun _ => ret None).

Definition mermaid_to_png_best_effort (code : string) : IO (option bytes) :=
  png <- mermaid_to_png_via_kroki code ;;
  match png with
  | Some p =>
      if truthy_bytes p then ret (Some p) else mermaid_to_png_via_chrome code
  | None => mermaid_to_png_via_chrome code
  end.

(** The strategies of the chain, in the order they are tried. *)
Inductive strategy : Type :=
| RemoteRaster | RemoteVector | PublicRaster | PublicVector | HeadlessBrowser.

(** The rasterizer gives a non-empty image for this vector body. *)
Definition rasterizes (svg : bytes) : bool :=
  (HAS_CAIROSVG env &&
   match svg2png env svg with
   | Ok png => truthy_bytes png
   | Raise _ => false
   end)%bool.

Definition raster_succeeds (e : endpoint) (code : string) : bool :=
  match http env e code with
  | Ok r => (ok r && truthy_bytes (content r))%bool
  | Raise _ => false
  end.

Definition vector_succeeds (e : endpoint) (code : string) : bool :=
  match http env e code with
  | Ok r => (ok r && truthy_bytes (content r) && rasterizes (content r))%bool
  | Raise _ => false
  end.

(** The strategy is available and gives an image for this text; a
    strategy fails when this is [false]: its package is missing, the
    call raised (a timeout does), the response was not a success or had
    an empty body, or the vector body could not be rasterized. *)
Definition succeeds (s : strategy) (code : string) : bool :=
  match s with
  | RemoteRaster => (HAS_REQUESTS env && truthy_str code && raster_succeeds KrokiPng code)%bool
  | RemoteVector => (HAS_REQUESTS env && truthy_str code && vector_succeeds KrokiSvg code)%bool
  | PublicRaster => (HAS_REQUESTS env && truthy_str code && raster_succeeds InkPng code)%bool
  | PublicVector => (HAS_REQUESTS env && truthy_str code && vector_succeeds InkSvg code)%bool
  | HeadlessBrowser =>
      (HAS_SELENIUM env && truthy_str code &&
       match screenshot env code with Ok _ => true | Raise _ => false end)%bool
  end.

End WithEnv.

(** A world for the examples: every package is there, the remote service
    answers the raster request with three bytes and nothing else works. *)
Definition env_kroki_up : Env :=
  {| HAS_REQUESTS := true; HAS_CAIROSVG := true; HAS_SELENIUM := true;
     http := fun e _ =>
       match e with
       | KrokiPng => Ok {| ok := true; content := ["P"; "N"; "G"]%byte |}
       | _ => Raise (Exception "timeout")
       end;
     svg2png := fun _ => Raise (Exception "bad svg");
     screenshot := fun _ => Raise (Exception "no chrome") |}.

(** A world where every strategy fails in a different way: a timeout, a
    non-200 response, an empty body, a vector body the rasterizer rejects,
    and no browser package. *)
Definition env_all_down : Env :=
  {| HAS_REQUESTS := true; HAS_CAIROSVG := true; HAS_SELENIUM := false;
     http := fun e _ =>
       match e with
       | KrokiPng => Raise (Exception "timeout")
       | KrokiSvg => Ok {| ok := false; content := ["x"]%byte |}
       | InkPng => Ok {| ok := true; content := [] |}
       | InkSvg => Ok {| ok := true; content := ["<"; "s"; "v"; "g"]%byte |}
       end;
     svg2png := fun _ => Raise (Exception "bad svg");
     screenshot := fun _ => Ok ["P"]%byte |}.

End Renderer.

(* ===================================================================== *)
(** * Prose generation: two candidates per request                         *)
(* ===================================================================== *)

Module ProseGen.
Import Py Text.

(** The two callables handed to the worker pool. *)
Inductive callable : Type := _groq_cover_letter_call | _groq_exec_summary_call.

(** One [ex.submit(fn, *args)]. *)
Record Submission : Type := {
  fn : callable;
  system_prompt : string;
  user_prompt : string;
  pdf_text : option string
}.

(** A page as [pdf_to_images_and_text] returns it. *)
Record Page : Type := { text : string; image_b64 : string }.

(** The outside world of a generation request. [groq_call i sub] is what
    the future in slot [i] delivers: the completion text (which the service
    may leave out), or the exception the call raised. Two calls with the
    same prompts may answer differently, hence the slot. *)
Record Env : Type := {
  PROMPT_COVER_LETTER : string;
  PROMPT_EXEC_SUMMARY : string;
  today : string;
  pdf_to_images_and_text : string -> result (list Page);
  groq_call : nat -> Submission -> result (option string)
}.

(** A [Future]: the slot it was created for and the call it runs. *)
Record Future : Type := { slot : nat; task : Submission }.

(** The state is the list of calls submitted to the pool, oldest first. *)
Definition IO : Type -> Type := M (list Submission).

Local Open Scope py_scope.

(** [ex.submit(..)] for the future of slot [i]. *)
Definition submit (i : nat) (sub : Submission) : IO Future :=
  fun pool => (Ok {| slot := i; task := sub |}, pool ++ [sub]).

(** [outputs[idx] = v] on a list that has the index. *)
Fixpoint set_item {A} (l : list A) (idx : nat) (v : A) : list A :=
  match l, idx with
  | [], _ => []
  | _ :: t, O => v :: t
  | x :: t, S j => x :: set_item t j v
  end.

(** [str(x)] of an [Optional[str]] inside an f-string. *)
Definition fmt (x : option string) : string :=
  match x with Some s => s | None => "None" end.

Section WithEnv.
Variable env : Env.

(** [fut.result()] *)
Definition future_result (fut : Future) : IO (option string) :=
  fun pool => (groq_call env (slot fut) (task fut), pool).

(** [as_completed(futures)]: the futures of the dict, in the order in which
    they finished; [order] lists their positions in the dict. *)
Definition as_completed (order : list nat) (futures : list (Future * nat))
  : list (Future * nat) :=
  flat_map (fun i => match nth_error futures i with
                     | Some f => [f]
                     | None => []
                     end) order.

(** The loop that collects the results; [label] is the text in front of the
    exception in the placeholder. *)
Fixpoint collect (label : string) (done : list (Future * nat))
    (outputs : list (option string)) : IO (list (option string)) :=
  match done with
  | [] => ret outputs
  | (fut, idx) :: rest =>
      outputs <- try_except
                   (r <- future_result fut ;; ret (set_item outputs idx r))
                   (fun e => ret (set_item outputs idx
                                    (Some (label ++ str_of_exn e)%string))) ;;
      collect label rest outputs
  end.

(** The [with ThreadPoolExecutor(max_workers=2) as ex:] block and the
    [return] after it. *)
Definition two_candidates (label : string) (order : list nat) (sub : Submission)
  : IO (string * string) :=
  let outputs : list (option string) := [None; None] in
  f0 <- submit 0 sub ;;
  f1 <- submit 1 sub ;;
  let futures := [(f0, 0); (f1, 1)] in
  outputs <- collect label (as_completed order futures) outputs ;;
  ret (or_str (nth 0 outputs None) "", or_str (nth 1 outputs None) "").

Definition generate_cover_letters_concurrent (order : list nat)
    (sender_name sender_title client_name executives offer_ref project_title : string)
    (invitation_date meeting_date : option string) : IO (string * string) :=
  let system_prompt := PROMPT_COVER_LETTER env in
  let letter_date := today env in
  let user_prompt :=
    (nl ++ "Generate a formal techno-commercial COVER LETTER for a proposal from below INPUT."
     ++ nl ++ nl
     ++ "Client: " ++ client_name ++ nl
     ++ "Executives: " ++ executives ++ nl
     ++ "Offer Ref: " ++ offer_ref ++ nl
     ++ "Date: " ++ letter_date ++ nl
     ++ "Project: " ++ project_title ++ nl
     ++ "Invitation Date: " ++ fmt invitation_date ++ nl
     ++ "Meeting Date: " ++ fmt meeting_date ++ nl
     ++ "Sender Name: " ++ sender_name ++ nl
     ++ "Sender Title: " ++ sender_title ++ nl)%string in
  two_candidates "Cover letter generation failed: " order
    {| fn := _groq_cover_letter_call; system_prompt := system_prompt;
       user_prompt := user_prompt; pdf_text := None |}.

(** What the first [try] block of [generate_exec_summaries_concurrent]
    leaves: the pair it returned, or the text of the PDF. *)
Inductive parsed : Type :=
| Returned (candidates : string * string)
| PdfText (pdf_text : string).

Definition generate_exec_summaries_concurrent (order : list nat)
    (pdf_path client_name project_name : string) : IO (string * string) :=
  let system_prompt := PROMPT_EXEC_SUMMARY env in
  let user_prompt :=
    (nl ++ "Generate an Executive Summary for the following proposal." ++ nl ++ nl
     ++ "Client: " ++ client_name ++ nl
     ++ "Project: " ++ project_name ++ nl)%string in
  p <- try_except
         (pages <- (fun pool => (pdf_to_images_and_text env pdf_path, pool)) ;;
          if negb (truthy_list pages)
          then ret (Returned ("No pages found in PDF.", "No pages found in PDF."))
          else ret (PdfText
                      (join nl (map text
                         (filter (fun p => truthy_str (strip (text p))) pages)))))
         (fun e =>
            ret (Returned (("PDF parsing failed: " ++ str_of_exn e)%string,
                           ("PDF parsing failed: " ++ str_of_exn e)%string))) ;;
  match p with
  | Returned candidates => ret candidates
  | PdfText pdf_text =>
      two_candidates "Executive summary generation failed: " order
        {| fn := _groq_exec_summary_call; system_prompt := system_prompt;
           user_prompt := user_prompt; pdf_text := Some pdf_text |}
  end.

(** What ends up in the slot of a call with outcome [o]. *)
Definition slot_text (label : string) (o : result (option string)) : string :=
  match o with
  | Ok c => or_str c ""
  | Raise e => (label ++ str_of_exn e)%string
  end.

End WithEnv.

(** A world for the examples: the PDF has one page; the call of slot 0
    raises and the call of slot 1 answers. *)
Definition env_first_fails : Env :=
  {| PROMPT_COVER_LETTER := "You write cover letters.";
     PROMPT_EXEC_SUMMARY := "You write executive summaries.";
     today := "03-11-2026";
     pdf_to_images_and_text := fun _ =>
       Ok [{| text := "Sorter with two outputs"; image_b64 := "" |}];
     groq_call := fun i _ =>
       match i with
       | 0 => Raise (Exception "rate limit")
       | _ => Ok (Some "Dear Sir")
       end |}.

(** A world whose PDF has no page. *)
Definition env_empty_pdf : Env :=
  {| PROMPT_COVER_LETTER := "You write cover letters.";
     PROMPT_EXEC_SUMMARY := "You write executive summaries.";
     today := "03-11-2026";
     pdf_to_images_and_text := fun _ => Ok [];
     groq_call := fun _ _ => Ok (Some "Summary") |}.

End ProseGen.

(* ===================================================================== *)
(** * Diagram synthesis: cleaning and validating the generated text        *)
(* ===================================================================== *)

Module Synth.
Import Py Text.

Definition fence : string := "```".

(** [re.sub(r"^```(?:mermaid)?\s*", "", out)]: the pattern is anchored at
    the start, so it matches once at most; the optional group and the
    whitespace run are greedy and nothing after them can fail. *)
Definition sub_opening_fence (out : string) : string :=
  match after_prefix fence out with
  | None => out
  | Some rest =>
      lstrip match after_prefix "mermaid" rest with
             | Some rest' => rest'
             | None => rest
             end
  end.

(** Whether [\s*```$] matches from the start of [s], and what the match
    leaves of [s]: [$] matches at the end of the text and before a newline
    that ends the text. *)
Definition closing_fence_here (s : string) : option string :=
  let r := lstrip s in
  if String.eqb r fence then Some EmptyString
  else if String.eqb r (fence ++ nl) then Some nl
  else None.

(** [re.sub(r"\s*```$", "", out)]: the leftmost position where the pattern
    matches; what is left after that match is empty or one newline, where
    the pattern cannot match again. *)
Fixpoint sub_closing_fence (out : string) : string :=
  match closing_fence_here out with
  | Some rest => rest
  | None =>
      match out with
      | EmptyString => EmptyString
      | String c t => String c (sub_closing_fence t)
      end
  end.

(** Whether [flowchart\s+TD[\s\S]+$] matches, ignoring case, from the start
    of [s]: the keyword, one whitespace at least, [TD], one more character
    at least; the match then runs to the end of the text. *)
Definition flowchart_td_here (s : string) : bool :=
  match after_prefix "flowchart" (lower s) with
  | None => false
  | Some _ =>
      let r := skip 9 s in
      match r with
      | EmptyString => false
      | String c _ =>
          (is_space c &&
           let r' := lstrip r in
           startswith (lower r') "td" && Nat.ltb 2 (String.length r'))%bool
      end
  end.

(** [re.search(r"(flowchart\s+TD[\s\S]+)$", out, re.IGNORECASE)]: group 1
    of the leftmost match. *)
Fixpoint search_flowchart_td (out : string) : option string :=
  if flowchart_td_here out then Some out
  else match out with
       | EmptyString => None
       | String _ t => search_flowchart_td t
       end.

(** The client object of the generative service. *)
Inductive Groq : Type := GroqClient.

(** A notice put on the page by [st.error] or [st.success]. *)
Inductive notice : Type :=
| st_error (msg : string)
| st_success (msg : string).

(** The world of a synthesis request: whether [load_groq] gets a client,
    what the service will answer to the calls to come (in order), the user
    messages of the calls made so far, the diagram text kept in the session
    and the notices shown. *)
Record World : Type := {
  groq_key_ok : bool;
  pending : list (result (option string));
  requests : list string;
  mermaid_code : option string;
  shown : list notice
}.

Definition IO : Type -> Type := M World.

Local Open Scope py_scope.

Definition load_groq : IO (option Groq) :=
  fun w => (Ok (if groq_key_ok w then Some GroqClient else None), w).

(** [client.chat.completions.create(..)] followed by
    [resp.choices[0].message.content]: one call to the service. *)
Definition chat_completions_create (client : option Groq) (user : string)
  : IO (option string) :=
  match client with
  | None => raise (Exception "'NoneType' object has no attribute 'chat'")
  | Some _ =>
      fun w =>
        let sent := {| groq_key_ok := groq_key_ok w;
                       pending := tl (pending w);
                       requests := requests w ++ [user];
                       mermaid_code := mermaid_code w;
                       shown := shown w |} in
        match pending w with
        | [] => (Raise (Exception "Connection error."), sent)
        | r :: _ => (r, sent)
        end
  end.

Definition user_message (solution_text : string) : string :=
  ("SOLUTION_TEXT:" ++ nl ++ solution_text ++ nl ++ nl
   ++ "Return only Mermaid code (start with: flowchart TD).")%string.

(** The text of [ask_llm_mermaid] after the call: from the content of the
    response to the returned string. *)
Definition clean_response (content : option string) : string :=
  let out := strip (or_str content "") in
  let out := sub_opening_fence out in
  let out := sub_closing_fence out in
  if negb (startswith (lower out) "flowchart") then
    match search_flowchart_td out with
    | Some g => strip g
    | None => out
    end
  else out.

Definition ask_llm_mermaid (client : option Groq) (solution_text : string)
  : IO string :=
  let user := user_message solution_text in
  content <- chat_completions_create client user ;;
  ret (clean_response content).

Definition st_show (n : notice) : IO unit :=
  modify (fun w => {| groq_key_ok := groq_key_ok w; pending := pending w;
                      requests := requests w; mermaid_code := mermaid_code w;
                      shown := shown w ++ [n] |}).

Definition set_mermaid_code (code : string) : IO unit :=
  modify (fun w => {| groq_key_ok := groq_key_ok w; pending := pending w;
                      requests := requests w; mermaid_code := Some code;
                      shown := shown w |}).

(** The notice of an invalid answer (the source writes its apostrophe as a
    typographic one). *)
Definition invalid_notice : notice :=
  st_error "The LLM didn't return valid Mermaid. Please try again.".

(** The handler of the button "Generate flowchart from solution PDF" in
    [step4_content]. [pdf] is [None] when no PDF bytes are at hand, and
    otherwise what [extract_relevant_text] does on them. *)
Definition generate_flowchart (pdf : option (result string)) : IO unit :=
  match pdf with
  | None =>
      st_show (st_error
        "Please upload the Solution Design PDF in Step 1 (or here above).")
  | Some extracted =>
      txt <- try_except (fun w => (extracted, w)) (fun _ => ret EmptyString) ;;
      code <- (if truthy_str txt then
                 try_except
                   (client <- load_groq ;; ask_llm_mermaid client txt)
                   (fun _ => ret EmptyString)
               else ret EmptyString) ;;
      if (negb (truthy_str code) || negb (startswith (lower code) "flowchart"))%bool
      then st_show invalid_notice
      else
        set_mermaid_code (strip code) ;;;
        st_show (st_success "Flowchart generated from PDF.")
  end.

(** A session for the examples: the first answer of the service is not a
    diagram, the second one would be. *)
Definition world_second_answer_valid : World :=
  {| groq_key_ok := true;
     pending := [Ok (Some "Here is what I think about the process.");
                 Ok (Some ("flowchart TD" ++ nl ++ "A-->B")%string)];
     requests := [];
     mermaid_code := None;
     shown := [] |}.

(** A session whose service answers with a fenced diagram. *)
Definition world_fenced_answer : World :=
  {| groq_key_ok := true;
     pending := [Ok (Some ("```mermaid" ++ nl ++ "flowchart TD" ++ nl ++ "A-->B"
                           ++ nl ++ "```")%string)];
     requests := [];
     mermaid_code := None;
     shown := [] |}.

End Synth.

(* ===================================================================== *)
(** * The diagram editor bridge: refreshing the preview                    *)
(* ===================================================================== *)

Module Editor.
Import Py Text.

(** The handle of the browser session that runs the editor. *)
Inductive Driver : Type := ChromeSession.

(** [_FlowAppState], without the download directory. Times are seconds
    since the epoch, as [time.time()] gives them; they are rationals here. *)
Record _FlowAppState : Type := {
  driver : option Driver;
  mode : option string;
  viewer_url : option string;
  last_refresh_ts : option Q
}.

(** What the page shows through [st.warning], [st.error], [st.info] and
    [st.caption], by message. *)
Inductive notice : Type :=
| EditorNotActive
| SessionLost
| NavigatedAway
| AttemptFailedRetrying (attempt : nat)
| ExportFileNotFound (msg : string)
| InvalidDiagramData (msg : string)
| ExportTimeout (msg : string)
| SimplifyTip
| WindowClosed
| ExportTimedOut
| WaitTip
| MenuNotFound
| RefreshFailed (msg : string)
| WaitCaption (seconds : Z).

(** What the handler does to the outside. *)
Inductive event : Type :=
| ReadCurrentUrl
| ExportXml (timeout_sec : Z)
| Sleep (seconds : Q)
| Shown (n : notice)
| Rerun.

(** The world of a refresh: the session state, the clock, what the
    browser will answer to the reads of [driver.current_url] and to the
    calls of [_DrawIO.export_xml] to come (in order), the files on disk, and
    the log of events. *)
Record World : Type := {
  fs : _FlowAppState;
  clock : Q;
  url_reads : list (result string);
  exports : list (result string);
  files : string -> option string;
  log : list event
}.

Definition IO : Type -> Type := M World.

Local Open Scope py_scope.

Definition emit (e : event) : IO unit :=
  modify (fun w => {| fs := fs w; clock := clock w; url_reads := url_reads w;
                      exports := exports w; files := files w;
                      log := log w ++ [e] |}).

Definition st (n : notice) : IO unit := emit (Shown n).

Definition set_fs (f : _FlowAppState -> _FlowAppState) : IO unit :=
  modify (fun w => {| fs := f (fs w); clock := clock w; url_reads := url_reads w;
                      exports := exports w; files := files w; log := log w |}).

Definition get_fs : IO _FlowAppState := fun w => (Ok (fs w), w).

(** [time.time()] *)
Definition time_time : IO Q := fun w => (Ok (clock w), w).

(** [time.sleep(d)] *)
Definition time_sleep (d : Q) : IO unit :=
  emit (Sleep d) ;;;
  modify (fun w => {| fs := fs w; clock := Qplus (clock w) d;
                      url_reads := url_reads w; exports := exports w;
                      files := files w; log := log w |}).

(** [fs.driver.current_url] *)
Definition current_url : IO string :=
  emit ReadCurrentUrl ;;;
  fun w =>
    let w' := {| fs := fs w; clock := clock w; url_reads := tl (url_reads w);
                 exports := exports w; files := files w; log := log w |} in
    match url_reads w with
    | [] => (Raise (Exception "invalid session id"), w')
    | r :: _ => (r, w')
    end.

(** [_DrawIO.export_xml(fs.driver, fs.download_dir, timeout_sec=..)]: the
    path of the exported file. *)
Definition export_xml (timeout_sec : Z) : IO string :=
  emit (ExportXml timeout_sec) ;;;
  fun w =>
    let w' := {| fs := fs w; clock := clock w; url_reads := url_reads w;
                 exports := tl (exports w); files := files w; log := log w |} in
    match exports w with
    | [] => (Raise (Exception "timeout"), w')
    | r :: _ => (r, w')
    end.

Definition reset_session (f : _FlowAppState) : _FlowAppState :=
  {| driver := None; mode := None; viewer_url := viewer_url f;
     last_refresh_ts := last_refresh_ts f |}.

Definition max_retries : nat := 2.

(** The loop [for attempt in range(max_retries)] of step 3, from [attempt]
    on, with [todo] turns left: the exported path, if an attempt returned
    one, and the last exception. *)
Fixpoint export_attempts (todo attempt : nat) (last_error : option exn)
  : IO (option string * option exn) :=
  match todo with
  | O => ret (None, last_error)
  | S todo' =>
      r <- try_except
             (xml_file <- export_xml 900 ;; ret (inl xml_file))
             (fun e =>
                (if Nat.ltb attempt (max_retries - 1)
                 then st (AttemptFailedRetrying (attempt + 1)) ;;;
                      time_sleep (3 # 2)%Q
                 else ret tt) ;;;
                ret (inr e)) ;;
      match r with
      | inl xml_file => ret (Some xml_file, last_error)
      | inr e => export_attempts todo' (S attempt) (Some e)
      end
  end.

Section WithViewer.

(** [_DrawIO.xml_to_viewer_url], which module [Viewer] models. *)
Variable xml_to_viewer_url : string -> string.

(** The body of the outer [try] of [_auto_refresh_drawio_preview]. *)
Definition refresh_body : IO bool :=
  alive <- try_except
             (_ <- current_url ;; ret true)
             (fun _ => st SessionLost ;;; set_fs reset_session ;;; ret false) ;;
  if negb alive then ret false
  else
    url <- current_url ;;
    if (negb (contains "diagrams.net" url) && negb (contains "draw.io" url))%bool
    then st NavigatedAway ;;; ret false
    else
      r <- export_attempts max_retries 0 None ;;
      let '(xml_file, last_error) := r in
      let exported := match xml_file with
                      | Some path => if truthy_str path then Some path else None
                      | None => None
                      end in
      match exported with
      | None =>
          raise (RuntimeError
                   ("XML export failed after 2 attempts: " ++
                    match last_error with
                    | Some e => str_of_exn e
                    | None => "None"
                    end)%string)
      | Some xml_file =>
          w <- get ;;
          match files w xml_file with
          | None =>
              raise (FileNotFoundError
                       ("Exported XML file not found: " ++ xml_file)%string)
          | Some xml_text =>
              if (negb (truthy_str xml_text) ||
                  Nat.ltb (String.length xml_text) 50)%bool
              then raise (ValueError "Exported XML is empty or too small")
              else
                now <- time_time ;;
                set_fs (fun f => {| driver := driver f; mode := mode f;
                                    viewer_url := Some (xml_to_viewer_url xml_text);
                                    last_refresh_ts := Some now |}) ;;;
                ret true
          end
      end.

(** The [except] clauses of [_auto_refresh_drawio_preview], in order. *)
Definition refresh_handler (e : exn) : IO bool :=
  match e with
  | FileNotFoundError m => st (ExportFileNotFound m) ;;; ret false
  | ValueError m => st (InvalidDiagramData m) ;;; ret false
  | RuntimeError m => st (ExportTimeout m) ;;; st SimplifyTip ;;; ret false
  | Exception error_msg =>
      let l := lower error_msg in
      (if (contains "no such window" l || contains "invalid session" l)%bool
       then st WindowClosed ;;; set_fs reset_session
       else if contains "timeout" l
       then st ExportTimedOut ;;; st WaitTip
       else if contains "element not found" l
       then st MenuNotFound
       else st (RefreshFailed error_msg)) ;;;
      ret false
  end.

Definition is_drawio (m : option string) : bool :=
  match m with
  | Some s => String.eqb s "drawio"
  | None => false
  end.

Definition _auto_refresh_drawio_preview : IO bool :=
  f <- get_fs ;;
  if (negb (is_drawio (mode f)) ||
      match driver f with None => true | Some _ => false end)%bool
  then st EditorNotActive ;;; ret false
  else try_except refresh_body refresh_handler.

(** [int(x)]: towards zero. *)
Definition int_of (x : Q) : Z :=
  if Qle_bool 0%Q x then Qfloor x else Z.opp (Qfloor (Qopp x)).

(** Truthiness of [fs.last_refresh_ts]: there, and not [0.0]. *)
Definition truthy_ts (t : option Q) : bool :=
  match t with
  | Some q => negb (Qeq_bool q 0%Q)
  | None => false
  end.

(** The refresh button of [step4_content]: the debounce lines, then the
    button. [clicked] is what [st.button] returns in this run of the page.
    The flag [can_refresh] is assigned and not read again. *)
Definition refresh_button (clicked : bool) : IO unit :=
  f <- get_fs ;;
  now <- time_time ;;
  can_refresh <-
    (if truthy_ts (last_refresh_ts f) then
       let elapsed := Qminus now match last_refresh_ts f with
                                 | Some t => t
                                 | None => 0%Q
                                 end in
       if negb (Qle_bool (3 # 1)%Q elapsed)
       then st (WaitCaption (3 - int_of elapsed)) ;;; ret false
       else ret true
     else ret true) ;;
  if clicked then
    success <- _auto_refresh_drawio_preview ;;
    if success then emit Rerun else ret tt
  else ret tt.

(** The cooldown as the page computes it: a refresh is on record and less
    than three seconds have gone by since. *)
Definition in_cooldown (w : World) : bool :=
  (truthy_ts (last_refresh_ts (fs w)) &&
   match last_refresh_ts (fs w) with
   | Some t => negb (Qle_bool (3 # 1)%Q (Qminus (clock w) t))
   | None => false
   end)%bool.

(** The calls of [_DrawIO.export_xml] in a log. *)
Definition export_calls (l : list event) : nat :=
  length (filter (fun e => match e with ExportXml _ => true | _ => false end) l).

End WithViewer.

(** A diagram file long enough to pass the size check. *)
Definition sample_xml : string :=
  "<mxfile><diagram><mxGraphModel><root><mxCell id=0 /></root></mxGraphModel></diagram></mxfile>".

(** An active editor session, refreshed at second 100; it is now second
    101, and the editor would export the diagram at once. *)
Definition world_just_refreshed : World :=
  {| fs := {| driver := Some ChromeSession; mode := Some "drawio";
              viewer_url := Some "https://viewer.diagrams.net/#Rprior";
              last_refresh_ts := Some (100 # 1)%Q |};
     clock := (101 # 1)%Q;
     url_reads := [Ok "https://app.diagrams.net/"; Ok "https://app.diagrams.net/"];
     exports := [Ok "/tmp/flowchart_x/diagram.xml"];
     files := fun path =>
       if String.eqb path "/tmp/flowchart_x/diagram.xml" then Some sample_xml else None;
     log := [] |}.

(** A stand-in for the viewer link of a markup text. *)
Definition link_of (xml : string) : string :=
  ("https://viewer.diagrams.net/#R" ++ xml)%string.

End Editor.

(* ===================================================================== *)
(** * The viewer link of an exported diagram                               *)
(* ===================================================================== *)

Module Viewer.
Import Py Text.

Local Open Scope N_scope.

Definition bytes : Type := list byte.

(** A [str] that may hold any text: the list of its code points. *)
Definition str : Type := list N.

(** The byte with value [n], for [n < 256]. *)
Definition byte_of_N (n : N) : byte :=
  match Byte.of_N n with
  | Some b => b
  | None => x00
  end.

Definition is_surrogate (c : N) : bool := ((0xD800 <=? c) && (c <=? 0xDFFF))%bool.

(** A Unicode scalar value: what UTF-8 can encode. *)
Definition scalar (c : N) : bool := ((c <? 0x110000) && negb (is_surrogate c))%bool.

(** The UTF-8 bytes of one code point. *)
Definition encode_codepoint (c : N) : option bytes :=
  if c <? 0x80 then Some [byte_of_N c]
  else if c <? 0x800 then
    Some [byte_of_N (0xC0 + c / 64); byte_of_N (0x80 + c mod 64)]
  else if c <? 0x10000 then
    if is_surrogate c then None
    else Some [byte_of_N (0xE0 + c / 4096);
               byte_of_N (0x80 + (c / 64) mod 64);
               byte_of_N (0x80 + c mod 64)]
  else if c <? 0x110000 then
    Some [byte_of_N (0xF0 + c / 262144);
          byte_of_N (0x80 + (c / 4096) mod 64);
          byte_of_N (0x80 + (c / 64) mod 64);
          byte_of_N (0x80 + c mod 64)]
  else None.

(** [s.encode("utf-8")]; a lone surrogate raises [UnicodeEncodeError], which
    is a [ValueError]. *)
Fixpoint encode_utf8 (s : str) : result bytes :=
  match s with
  | [] => Ok []
  | c :: t =>
      match encode_codepoint c, encode_utf8 t with
      | Some bs, Ok rest => Ok (bs ++ rest)%list
      | None, _ => Raise (ValueError "'utf-8' codec can't encode character: surrogates not allowed")
      | _, Raise e => Raise e
      end
  end.

(** The six payload bits of a continuation byte. *)
Definition continuation (b : byte) : option N :=
  let n := Byte.to_N b in
  if ((0x80 <=? n) && (n <? 0xC0))%bool then Some (n - 0x80) else None.

(** [b.decode("utf-8")] in strict mode: [None] where Python raises. *)
Fixpoint decode_utf8 (bs : bytes) : option str :=
  match bs with
  | [] => Some []
  | b0 :: rest =>
      let n0 := Byte.to_N b0 in
      if n0 <? 0x80 then option_map (cons n0) (decode_utf8 rest)
      else if n0 <? 0xC0 then None
      else if n0 <? 0xE0 then
        match rest with
        | b1 :: rest1 =>
            match continuation b1 with
            | Some x1 =>
                let c := (n0 - 0xC0) * 64 + x1 in
                if c <? 0x80 then None
                else option_map (cons c) (decode_utf8 rest1)
            | None => None
            end
        | _ => None
        end
      else if n0 <? 0xF0 then
        match rest with
        | b1 :: b2 :: rest2 =>
            match continuation b1, continuation b2 with
            | Some x1, Some x2 =>
                let c := (n0 - 0xE0) * 4096 + x1 * 64 + x2 in
                if ((c <? 0x800) || is_surrogate c)%bool then None
                else option_map (cons c) (decode_utf8 rest2)
            | _, _ => None
            end
        | _ => None
        end
      else if n0 <? 0xF8 then
        match rest with
        | b1 :: b2 :: b3 :: rest3 =>
            match continuation b1, continuation b2, continuation b3 with
            | Some x1, Some x2, Some x3 =>
                let c := (n0 - 0xF0) * 262144 + x1 * 4096 + x2 * 64 + x3 in
                if ((c <? 0x10000) || negb (c <? 0x110000))%bool then None
                else option_map (cons c) (decode_utf8 rest3)
            | _, _, _ => None
            end
        | _ => None
        end
      else None
  end.

(** The standard base64 alphabet. *)
Definition alphabet : list ascii :=
  list_ascii_of_string
    "ABCDEFGHIJKLMNOPQRSTUVWXYZabcdefghijklmnopqrstuvwxyz0123456789+/".

Definition pad : ascii := "="%char.

(** The character of a six-bit value. *)
Definition b64_char (n : N) : ascii := nth (N.to_nat n) alphabet pad.

Fixpoint index_of (c : ascii) (l : list ascii) (i : N) : option N :=
  match l with
  | [] => None
  | x :: t => if Ascii.eqb x c then Some i else index_of c t (i + 1)
  end.

(** The six-bit value of a character of the alphabet. *)
Definition b64_index (c : ascii) : option N := index_of c alphabet 0.

(** [base64.b64encode(bs).decode("ascii")]: three bytes give four
    characters; a last group of one or two bytes is padded with [=]. *)
Fixpoint b64encode (bs : bytes) : string :=
  match bs with
  | [] => EmptyString
  | [a] =>
      let n := Byte.to_N a * 65536 in
      String (b64_char (n / 262144))
     (String (b64_char ((n / 4096) mod 64))
     (String pad (String pad EmptyString)))
  | [a; b] =>
      let n := Byte.to_N a * 65536 + Byte.to_N b * 256 in
      String (b64_char (n / 262144))
     (String (b64_char ((n / 4096) mod 64))
     (String (b64_char ((n / 64) mod 64))
     (String pad EmptyString)))
  | a :: b :: c :: rest =>
      let n := Byte.to_N a * 65536 + Byte.to_N b * 256 + Byte.to_N c in
      String (b64_char (n / 262144))
     (String (b64_char ((n / 4096) mod 64))
     (String (b64_char ((n / 64) mod 64))
     (String (b64_char (n mod 64))
     (b64encode rest))))
  end.

Definition is_empty (s : string) : bool :=
  match s with EmptyString => true | _ => false end.

(** Strict base64 decoding: groups of four characters of the alphabet,
    padding in the last group only. *)
Fixpoint b64decode (s : string) : option bytes :=
  match s with
  | EmptyString => Some []
  | String c0 (String c1 (String c2 (String c3 rest))) =>
      match b64_index c0, b64_index c1 with
      | Some s0, Some s1 =>
          if Ascii.eqb c2 pad then
            if (Ascii.eqb c3 pad && is_empty rest)%bool
            then Some [byte_of_N ((s0 * 262144 + s1 * 4096) / 65536)]
            else None
          else
            match b64_index c2 with
            | Some s2 =>
                if Ascii.eqb c3 pad then
                  if is_empty rest then
                    let n := s0 * 262144 + s1 * 4096 + s2 * 64 in
                    Some [byte_of_N (n / 65536); byte_of_N ((n / 256) mod 256)]
                  else None
                else
                  match b64_index c3 with
                  | Some s3 =>
                      let n := s0 * 262144 + s1 * 4096 + s2 * 64 + s3 in
                      option_map
                        (fun tl => byte_of_N (n / 65536)
                                   :: byte_of_N ((n / 256) mod 256)
                                   :: byte_of_N (n mod 256) :: tl)
                        (b64decode rest)
                  | None => None
                  end
            | None => None
            end
      | _, _ => None
      end
  | _ => None
  end.

Definition viewer_base : string :=
  "https://viewer.diagrams.net/?lightbox=1&nav=1&layers=1&noSaveBtn=1".

Section WithZlib.

(** [zlib.compressobj(level=9, wbits=-15)] used once: [comp.compress(raw) +
    comp.flush()], the raw deflate stream (no zlib header or checksum) of
    [raw]. zlib is not part of the program; the compressor is a parameter. *)
Variable deflate : bytes -> bytes.

Definition xml_to_viewer_url (xml_str : str) : result string :=
  match encode_utf8 xml_str with
  | Raise e => Raise e
  | Ok raw =>
      let deflated := deflate raw in
      let b64 := b64encode deflated in
      Ok (viewer_base ++ "#R" ++ b64)%string
  end.

(** The matching inflater, for the reader of the link. *)
Variable inflate : bytes -> option bytes.

(** What a reader of the link does: take the fragment after [#R], decode
    the base64, inflate, decode the UTF-8. *)
Definition read_viewer_url (url : string) : option str :=
  match after_prefix (viewer_base ++ "#R") url with
  | None => None
  | Some fragment =>
      match b64decode fragment with
      | None => None
      | Some deflated =>
          match inflate deflated with
          | None => None
          | Some raw => decode_utf8 raw
          end
      end
  end.

End WithZlib.

(** A deflate stream made of stored blocks only (RFC 1951, block type 00):
    the header byte, the length and its complement in two bytes each, and
    the data as it is. One block holds the input when it is shorter than
    65536 bytes, which the examples are. *)
Definition deflate_stored (raw : bytes) : bytes :=
  let n := N.of_nat (length raw) in
  (x01 :: byte_of_N (n mod 256) :: byte_of_N (n / 256)
       :: byte_of_N (255 - n mod 256) :: byte_of_N (255 - n / 256) :: raw)%list.

(** The reader of such a stream: a final stored block, whose data follow
    the five bytes of its header. *)
Definition inflate_stored (deflated : bytes) : option bytes :=
  match deflated with
  | h :: _ :: _ :: _ :: _ :: raw => if Byte.eqb h x01 then Some raw else None
  | _ => None
  end.

(** The code points of an ASCII text. *)
Definition str_of_string (s : string) : str :=
  map N_of_ascii (list_ascii_of_string s).

Definition sample_markup : str :=
  (str_of_string "<mxfile><diagram>Sorter " ++ [0x2192; 0x1F4E6] ++
   str_of_string "</diagram></mxfile>")%list.

End Viewer.

(* ===================================================================== *)
(** * Image normalization: crop the border, flatten the alpha              *)
(* ===================================================================== *)

Module Imaging.
Import Py.

(** The modes the function tells apart; [OtherMode] is any mode that is
    neither ["RGB"] nor ["RGBA"] (["L"], ["P"], ["LA"], ..). *)
Inductive Mode : Type := RGB | RGBA | OtherMode.

(** The bands of a pixel, each in 0..255. *)
Record pixel : Type := { R : Z; G : Z; B : Z; A : Z }.

(** A decoded image: its mode, its size, and its pixels by column [x] and
    row [y], looked at for [x < width] and [y < height] only. An image in
    a mode other than RGB and RGBA is given by the pixels of its RGBA
    conversion; the alpha band of an RGB image is not looked at. *)
Record Image : Type := {
  mode : Mode;
  width : nat;
  height : nat;
  getpixel : nat -> nat -> pixel
}.

(** A band, or a single-band image of the same size. *)
Definition channel : Type := nat -> nat -> Z.

(** A box [(left, upper, right, lower)], written [(x0, y0, x1, y1)] below. *)
Definition box : Type := (nat * nat * nat * nat)%type.

(** The least [i < n] with [p i]. *)
Fixpoint find_first (p : nat -> bool) (n : nat) : option nat :=
  match n with
  | O => None
  | S m =>
      match find_first p m with
      | Some i => Some i
      | None => if p m then Some m else None
      end
  end.

(** The greatest [i < n] with [p i]. *)
Fixpoint find_last (p : nat -> bool) (n : nat) : option nat :=
  match n with
  | O => None
  | S m => if p m then Some m else find_last p m
  end.

(** Some [i < n] has [p i]. *)
Definition any_below (p : nat -> bool) (n : nat) : bool :=
  match find_first p n with Some _ => true | None => false end.

(** [band.getbbox()]: the bounding box of the non-zero pixels of a band of
    size [w] by [h], or [None] when all of them are zero. *)
Definition getbbox (band : channel) (w h : nat) : option box :=
  let nonzero x y := negb (Z.eqb (band x y) 0) in
  let row y := any_below (fun x => nonzero x y) w in
  let col x := any_below (fun y => nonzero x y) h in
  match find_first col w, find_first row h, find_last col w, find_last row h with
  | Some x0, Some y0, Some x1, Some y1 =>
      Some (x0, y0, S x1, S y1)
  | _, _, _, _ => None
  end.

(** [im.crop(bbox)] *)
Definition crop (im : Image) (bbox : box) : Image :=
  let '(x0, y0, x1, y1) := bbox in
  {| mode := mode im;
     width := x1 - x0;
     height := y1 - y0;
     getpixel := fun x y => getpixel im (x + x0) (y + y0) |}.

Definition is_rgba (m : Mode) : bool :=
  match m with RGBA => true | _ => false end.

Section WithPillow.

(** The arithmetic of Pillow, which is not part of the program: the luma of
    an RGB pixel ([convert("L")]), and the blend of [paste] for one band,
    [blend mask under over]. *)
Variable luma : Z -> Z -> Z -> Z.
Variable blend : Z -> Z -> Z -> Z.

(** [im.getchannel("A")] *)
Definition alpha_channel (im : Image) : channel :=
  fun x y => A (getpixel im x y).

(** [ImageOps.grayscale(im.convert("RGB"))]: the alpha band is dropped. *)
Definition grayscale (im : Image) : channel :=
  fun x y => let p := getpixel im x y in luma (R p) (G p) (B p).

(** [gray.point(lambda p: 255 if p > 245 else 0)] *)
Definition threshold (gray : channel) : channel :=
  fun x y => if Z.ltb 245 (gray x y) then 255%Z else 0%Z.

(** [ImageOps.invert(bg)] *)
Definition invert (bg : channel) : channel :=
  fun x y => (255 - bg x y)%Z.

(** The bounding box of the pixels that are not near-white. *)
Definition near_white_bbox (im : Image) : option box :=
  let gray := grayscale im in
  let bg := threshold gray in
  getbbox (invert bg) (width im) (height im).

(** A white RGB image of the size of [im] with [im] pasted through its own
    alpha band. *)
Definition flatten (im : Image) : Image :=
  {| mode := RGB;
     width := width im;
     height := height im;
     getpixel := fun x y =>
       let p := getpixel im x y in
       {| R := blend (A p) 255 (R p);
          G := blend (A p) 255 (G p);
          B := blend (A p) 255 (B p);
          A := 255 |} |}.

(** The body of the [try] of [_auto_crop_png_whitespace], on the decoded
    image. *)
Definition normalize (im : Image) : Image :=
  let im := match mode im with
            | RGB | RGBA => im
            | OtherMode => {| mode := RGBA; width := width im; height := height im;
                              getpixel := getpixel im |}
            end in
  let bbox := if is_rgba (mode im)
              then getbbox (alpha_channel im) (width im) (height im)
              else None in
  let bbox := match bbox with
              | Some b => Some b
              | None => near_white_bbox im
              end in
  let im := match bbox with
            | Some b => crop im b
            | None => im
            end in
  if is_rgba (mode im) then flatten im else im.

(** The bytes of a PNG file, given by the image they decode to; or bytes
    that [PILImage.open] cannot read. *)
Inductive png_bytes : Type :=
| Png (im : Image)
| NotAnImage (raw : list byte).

(** Opening the bytes raises when they are no image, and the [except]
    clause returns them as they came. *)
Definition _auto_crop_png_whitespace (png : png_bytes) : png_bytes :=
  match png with
  | Png im => Png (normalize im)
  | NotAnImage raw => NotAnImage raw
  end.

End WithPillow.

(** The pixel dimensions of the picture in the bytes. *)
Definition size (png : png_bytes) : option (nat * nat) :=
  match png with
  | Png im => Some (width im, height im)
  | NotAnImage _ => None
  end.

Definition is_rgb_png (png : png_bytes) : Prop :=
  match png with
  | Png im => mode im = RGB
  | NotAnImage _ => True
  end.

(** Pillow's luma: ITU-R 601-2 in 16-bit fixed point. *)
Definition pillow_luma (r g b : Z) : Z :=
  Z.shiftr (r * 19595 + g * 38470 + b * 7471 + 32768) 16.

(** Pillow's blend of one band through an 8-bit mask, with its division
    by 255. *)
Definition pillow_blend (mask under over : Z) : Z :=
  let tmp := (under * (255 - mask) + over * mask + 128)%Z in
  Z.shiftr (Z.shiftr tmp 8 + tmp) 8.

Definition opaque (r g b : Z) : pixel := {| R := r; G := g; B := b; A := 255 |}.
Definition transparent : pixel := {| R := 0; G := 0; B := 0; A := 0 |}.

(** A picture three pixels wide and one high, with an alpha band: an opaque
    white pixel, an opaque black pixel, a transparent pixel. *)
Definition white_black_clear : Image :=
  {| mode := RGBA; width := 3; height := 1;
     getpixel := fun x _ =>
       match x with
       | 0 => opaque 255 255 255
       | 1 => opaque 0 0 0
       | _ => transparent
       end |}.

(** An opaque picture, three by three, white with a black centre. *)
Definition framed_dot : Image :=
  {| mode := RGB; width := 3; height := 3;
     getpixel := fun x y =>
       match x, y with
       | 1, 1 => opaque 0 0 0
       | _, _ => opaque 255 255 255
       end |}.

End Imaging.

(* ===================================================================== *)
(** * Reading the log of a rendering                                       *)
(* ===================================================================== *)

Module RendererLog.
Import Py Renderer.

(** The endpoints requested, in the order of the requests. *)
Fixpoint endpoints_of (log : list call) : list endpoint :=
  match log with
  | [] => []
  | Http e _ :: t => e :: endpoints_of t
  | _ :: t => endpoints_of t
  end.

(** How many times the headless browser was started. *)
Fixpoint browser_runs (log : list call) : nat :=
  match log with
  | [] => 0
  | Chrome _ :: t => S (browser_runs t)
  | _ :: t => browser_runs t
  end.

(** The order in which [mermaid_to_png_via_kroki] asks the endpoints. *)
Definition chain_order : list endpoint := [KrokiPng; KrokiSvg; InkPng; InkSvg].

(** A world where only the headless browser gives an image. *)
Definition env_browser_only : Env :=
  {| HAS_REQUESTS := true; HAS_CAIROSVG := false; HAS_SELENIUM := true;
     http := fun e _ =>
       match e with
       | KrokiPng | InkPng => Ok {| ok := false; content := [] |}
       | KrokiSvg | InkSvg => Ok {| ok := true; content := ["<"; "s"; "v"; "g"]%byte |}
       end;
     svg2png := fun _ => Ok ["P"]%byte;
     screenshot := fun _ => Ok ["S"; "H"; "O"; "T"]%byte |}.

End RendererLog.

(* ===================================================================== *)
(** * Reading the log of a refresh                                         *)
(* ===================================================================== *)

Module EditorLog.
Import Py Text Editor.

(** The editor is open: the guard at the top of
    [_auto_refresh_drawio_preview] lets the refresh go on. *)
Definition active (w : World) : bool :=
  (is_drawio (mode (fs w)) &&
   match driver (fs w) with Some _ => true | None => false end)%bool.

(** The browser is on a page of the editor. *)
Definition on_editor_domain (url : string) : bool :=
  (contains "diagrams.net" url || contains "draw.io" url)%bool.

(** The pauses between attempts in a log. *)
Definition sleeps (l : list event) : nat :=
  length (filter (fun e => match e with Sleep _ => true | _ => false end) l).

(** The session is gone: the first read of [driver.current_url] raises. *)
Definition probe_fails (w : World) : bool :=
  match url_reads w with
  | Ok _ :: _ => false
  | _ => true
  end.

(** An open editor whose browser window was closed. *)
Definition world_window_closed : World :=
  {| fs := {| driver := Some ChromeSession; mode := Some "drawio";
              viewer_url := Some "https://viewer.diagrams.net/#Rprior";
              last_refresh_ts := Some (100 # 1)%Q |};
     clock := (200 # 1)%Q;
     url_reads := [Raise (Exception "no such window: target window already closed")];
     exports := [Ok "/tmp/flowchart_x/diagram.xml"];
     files := fun _ => None;
     log := [] |}.

End EditorLog.

(* ===================================================================== *)
(** * Step 5: gathering the sections of the final proposal                 *)
(* ===================================================================== *)

Module Assembly.
Import Py Docx.

(** What step 5 reads from [st.session_state]: the buffers of the sections
    the user has selected or built, [None] when there is none. *)
Record Session : Type := {
  selected_cover_buffer : option BytesIO;
  manual_rfq_buffer : option BytesIO;
  selected_summary_buffer : option BytesIO;
  flowchart_docx_buffer : option BytesIO
}.

(** Truthiness of a buffer read from the session: a buffer is truthy,
    [None] is not. *)
Definition there (b : option BytesIO) : bool :=
  match b with Some _ => true | None => false end.

Section WithBuilders.

(** The two sections that are always built, and the pass over the selected
    summary; the three builders work on document styling and are taken as
    they are. *)
Variable cover_page : BytesIO.
Variable company_profile : BytesIO.
Variable _indent_exec_summary_bullets : BytesIO -> BytesIO.

(** [parts.append(b); labels.append(l)] when [b] is there. *)
Definition append_if (b : option BytesIO) (l : string)
    (acc : list BytesIO * list string) : list BytesIO * list string :=
  match b with
  | Some buf => (fst acc ++ [buf], snd acc ++ [l])
  | None => acc
  end.

(** The summary after [if es: es = _indent_exec_summary_bullets(es, ..)]. *)
Definition indented_summary (s : Session) : option BytesIO :=
  option_map _indent_exec_summary_bullets (selected_summary_buffer s).

(** "Gather parts in required order": the buffers to merge and their
    labels. *)
Definition gather_parts (s : Session) : list BytesIO * list string :=
  let acc := ([cover_page], ["Cover Page"]) in
  let acc := append_if (selected_cover_buffer s) "Cover Letter" acc in
  let acc := append_if (manual_rfq_buffer s) "Response to RFQ" acc in
  let acc := append_if (indented_summary s) "Executive Summary" acc in
  let acc := (fst acc ++ [company_profile], snd acc ++ ["Company Profile"]) in
  append_if (flowchart_docx_buffer s) "Concept Description" acc.

(** "Validate required items" *)
Definition missing (s : Session) : list string :=
  (if there (selected_cover_buffer s) then [] else ["Cover Letter"]) ++
  (if there (manual_rfq_buffer s) then [] else ["Response to RFQ"]) ++
  (if there (indented_summary s) then [] else ["Executive Summary"]) ++
  (if there (flowchart_docx_buffer s) then [] else ["Concept Description"]).

(** [can_merge = all([cov, rfq, es, flow])] *)
Definition can_merge (s : Session) : bool :=
  forallb there [selected_cover_buffer s; manual_rfq_buffer s;
                 indented_summary s; flowchart_docx_buffer s].

(** What the button "Generate Final Proposal" does: nothing when it is
    disabled or not clicked, the merge of the gathered parts otherwise. *)
Definition generate_final_proposal (s : Session) (clicked : bool)
  : option (result BytesIO) :=
  let disabled := negb (can_merge s) in
  let gen_btn := (clicked && negb disabled)%bool in
  if gen_btn
  then Some (merge_docx_files_with_page_breaks (map Some (fst (gather_parts s))))
  else None.

End WithBuilders.

Definition doc_of (t : string) : BytesIO :=
  Saved {| body := [Paragraph [[Text t]]] |}.

(** A session with the four selected sections. *)
Definition session_complete : Session :=
  {| selected_cover_buffer := Some (doc_of "Dear Sir");
     manual_rfq_buffer := Some (doc_of "Response");
     selected_summary_buffer := Some (doc_of "Summary");
     flowchart_docx_buffer := Some (doc_of "Concept") |}.

End Assembly.

(* ===================================================================== *)
(** * Reading a synthesis request                                          *)
(* ===================================================================== *)

Module SynthLog.
Import Py Text Synth.

(** The request has a text to send: the PDF is there, the extraction
    returned, and what it returned is not empty. *)
Definition has_text (pdf : option (result string)) : bool :=
  match pdf with
  | Some (Ok txt) => truthy_str txt
  | _ => false
  end.

(** [s.endswith(x)] *)
Fixpoint endswith (s x : string) : bool :=
  (String.eqb s x ||
   match s with
   | EmptyString => false
   | String _ t => endswith t x
   end)%bool.

(** A text without whitespace at either end. *)
Definition trimmed (s : string) : Prop := lstrip s = s /\ rstrip s = s.

(** A session without a key for the generative service. *)
Definition world_without_key : World :=
  {| groq_key_ok := false;
     pending := [Ok (Some "flowchart TD")];
     requests := [];
     mermaid_code := Some "flowchart TD; A-->B";
     shown := [] |}.

End SynthLog.

(* ===================================================================== *)
(** * The addresses of the rendering services                              *)
(* ===================================================================== *)

Module Links.
Import Py Text Viewer.

(** [s.translate(table)] for a table given as a function on characters. *)
Fixpoint translate (f : ascii -> ascii) (s : string) : string :=
  match s with
  | EmptyString => EmptyString
  | String c t => String (f c) (translate f t)
  end.

(** The table of [base64.urlsafe_b64encode]: [+] becomes [-] and [/]
    becomes [_]. *)
Definition urlsafe_char (c : ascii) : ascii :=
  if Ascii.eqb c "+" then "-"%char
  else if Ascii.eqb c "/" then "_"%char
  else c.

(** The table of [base64.urlsafe_b64decode], the other way round. *)
Definition standard_char (c : ascii) : ascii :=
  if Ascii.eqb c "-" then "+"%char
  else if Ascii.eqb c "_" then "/"%char
  else c.

(** [base64.urlsafe_b64encode(bs).decode("ascii")] *)
Definition urlsafe_b64encode (bs : bytes) : string :=
  translate urlsafe_char (b64encode bs).

(** [base64.urlsafe_b64decode(s)], strict. *)
Definition urlsafe_b64decode (s : string) : option bytes :=
  b64decode (translate standard_char s).

(** Every character of [s] satisfies [p]. *)
Fixpoint all_chars (p : ascii -> bool) (s : string) : bool :=
  match s with
  | EmptyString => true
  | String c t => (p c && all_chars p t)%bool
  end.

(** A character of the standard base64 alphabet, or the padding. *)
Definition is_b64 (c : ascii) : bool :=
  existsb (Ascii.eqb c) (pad :: alphabet).

Section WithZlib.

(** [zlib.compress], the zlib stream of its argument; zlib is not part of
    the program. *)
Variable compress : bytes -> bytes.

Definition _deflate_b64_urlsafe (s : str) : result string :=
  match encode_utf8 s with
  | Raise e => Raise e
  | Ok raw =>
      let comp := compress raw in
      Ok (urlsafe_b64encode comp)
  end.

(** [f"https://mermaid.ink/img/{code_b64}"] *)
Definition mermaid_ink_img_url (mermaid_code : str) : result string :=
  match _deflate_b64_urlsafe mermaid_code with
  | Raise e => Raise e
  | Ok code_b64 => Ok ("https://mermaid.ink/img/" ++ code_b64)%string
  end.

End WithZlib.

(** [s.rstrip(ch)] for one character. *)
Fixpoint rstrip_char (ch : ascii) (s : string) : string :=
  match s with
  | EmptyString => EmptyString
  | String c t =>
      match rstrip_char ch t with
      | EmptyString => if Ascii.eqb c ch then EmptyString else String c EmptyString
      | t' => String c t'
      end
  end.

(** [kroki_url()]; [env] is what [os.getenv("KROKI_URL")] gives. *)
Definition kroki_url (env : option string) : string :=
  let url := strip (or_str env "") in
  if truthy_str url then url else "https://kroki.io".

(** [kroki_url().rstrip("/") + "/mermaid/png"] *)
Definition kroki_png_url (env : option string) : string :=
  (rstrip_char "/" (kroki_url env) ++ "/mermaid/png")%string.

End Links.

(* ===================================================================== *)
(** * Checking an image before it goes into a document                     *)
(* ===================================================================== *)

Module PngChecks.
Import Py Imaging.

Section WithPillow.

Variable luma : Z -> Z -> Z -> Z.
Variable blend : Z -> Z -> Z -> Z.

(** [len(png_bytes)]: the size of the encoded file, which the decoded image
    does not determine. *)
Variable byte_length : png_bytes -> nat.

(** [_valid_png]: [None] where the function returns [None]. *)
Definition _valid_png (png : png_bytes) : option png_bytes :=
  match png with
  | NotAnImage _ => None
  | Png im =>
      if (Nat.ltb (width im) 8 || Nat.ltb (height im) 8)%bool then None
      else Some (_auto_crop_png_whitespace luma blend png)
  end.

(** The crop of [_require_valid_png]: as in [_auto_crop_png_whitespace],
    without the conversion of other modes to RGBA. *)
Definition crop_borders (im : Image) : Image :=
  let bbox := if is_rgba (mode im)
              then getbbox (alpha_channel im) (width im) (height im)
              else None in
  let bbox := match bbox with
              | Some b => Some b
              | None => near_white_bbox luma im
              end in
  match bbox with
  | Some b => crop im b
  | None => im
  end.

Definition _require_valid_png (png : png_bytes) : result png_bytes :=
  if Nat.ltb (byte_length png) 100
  then Raise (ValueError "Flowchart PNG missing or too small.")
  else
    match png with
    | NotAnImage _ =>
        Raise (ValueError "Flowchart PNG is corrupt: cannot identify image file")
    | Png im =>
        let im := crop_borders im in
        if (Nat.ltb (width im) 50 || Nat.ltb (height im) 50)%bool
        then Raise (ValueError "Flowchart image too small after cropping")
        else Ok (Png (if is_rgba (mode im) then flatten blend im else im))
    end.

End WithPillow.

(** The luma of a pixel is above the near-white threshold. *)
Definition near_white (luma : Z -> Z -> Z -> Z) (p : pixel) : Prop :=
  (245 < luma (R p) (G p) (B p))%Z.

(** An opaque picture of sixty by sixty pixels, white with a black square
    of fifty-two by fifty-two in the middle. *)
Definition boxed_square : Image :=
  {| mode := RGB; width := 60; height := 60;
     getpixel := fun x y =>
       if (Nat.leb 4 x && Nat.ltb x 56 && Nat.leb 4 y && Nat.ltb y 56)%bool
       then opaque 0 0 0 else opaque 255 255 255 |}.

End PngChecks.

(* ===================================================================== *)
(** * Inline bold: the runs of a paragraph                                 *)
(* ===================================================================== *)

Module Runs.
Import Py Text.

(** A run as [add_runs_from_text] leaves it: [bold] is [None] where the
    function does not set it. *)
Record TextRun : Type := {
  run_text : string;
  bold : option bool;
  italic : bool;
  font_name : string;
  font_size_pt : nat
}.

Definition newline : ascii := ascii_of_nat 10.

(** The lazy group [(.+?)] followed by the closing [**], from the start of
    [r]: the shortest non-empty text without a newline after which [**]
    stands, and what follows that [**]. *)
Fixpoint lazy_group (r : string) : option (string * string) :=
  match r with
  | EmptyString => None
  | String c r' =>
      if Ascii.eqb c newline then None
      else
        match after_prefix "**" r' with
        | Some rest => Some (String c EmptyString, rest)
        | None =>
            match lazy_group r' with
            | Some (inner, rest) => Some (String c inner, rest)
            | None => None
            end
        end
  end.

(** Whether [\*\*(.+?)\*\*] matches from the start of [s]: group 1 and the
    text after the match. *)
Definition bold_here (s : string) : option (string * string) :=
  match after_prefix "**" s with
  | Some r => lazy_group r
  | None => None
  end.

Section WithFormat.

Variable italic_flag : bool.
Variable base_font : string.
Variable base_size_pt : nat.

Definition plain_run (t : string) : TextRun :=
  {| run_text := t; bold := None; italic := italic_flag;
     font_name := base_font; font_size_pt := base_size_pt |}.

Definition bold_run (t : string) : TextRun :=
  {| run_text := t; bold := Some true; italic := italic_flag;
     font_name := base_font; font_size_pt := base_size_pt |}.

(** [if pre: paragraph.add_run(pre)] *)
Definition add_plain (pre : string) : list TextRun :=
  if truthy_str pre then [plain_run pre] else [].

(** The loop over [pattern.finditer(text)] and the remainder after it.
    [s] is the text still to scan and [pre] the text since the last match;
    a match is looked for at each position from left to right, and the scan
    goes on after the match. [fuel] bounds the positions tried. *)
Fixpoint scan (fuel : nat) (s pre : string) : list TextRun :=
  match fuel with
  | O => add_plain (pre ++ s)
  | S fuel' =>
      match bold_here s with
      | Some (inner, rest) => add_plain pre ++ bold_run inner :: scan fuel' rest EmptyString
      | None =>
          match s with
          | EmptyString => add_plain pre
          | String c t => scan fuel' t (pre ++ String c EmptyString)
          end
      end
  end.

(** The runs appended to the paragraph. *)
Definition add_runs_from_text (text : string) : list TextRun :=
  scan (S (String.length text)) text EmptyString.

End WithFormat.

(** The text of a run, with the delimiters back around a bold run. *)
Definition written (r : TextRun) : string :=
  match bold r with
  | Some true => ("**" ++ run_text r ++ "**")%string
  | _ => run_text r
  end.

Fixpoint written_all (rs : list TextRun) : string :=
  match rs with
  | [] => EmptyString
  | r :: t => (written r ++ written_all t)%string
  end.

(** A run with text, in the format [i], [f], [n], that is either plain or
    bold on a single line. *)
Definition well_formed (i : bool) (f : string) (n : nat) (r : TextRun) : Prop :=
  run_text r <> EmptyString /\
  italic r = i /\ font_name r = f /\ font_size_pt r = n /\
  (bold r = None \/
   bold r = Some true /\ ~ In newline (list_ascii_of_string (run_text r))).

End Runs.

(* ===================================================================== *)
(** * Worlds for further examples                                          *)
(* ===================================================================== *)

Module MoreWorlds.
Import Py ProseGen.

(** A world whose PDF is a scan: two pages, neither with any text. *)
Definition env_scanned_pdf : Env :=
  {| PROMPT_COVER_LETTER := "You write cover letters.";
     PROMPT_EXEC_SUMMARY := "You write executive summaries.";
     today := "04-11-2026";
     pdf_to_images_and_text := fun _ =>
       Ok [{| text := ""; image_b64 := "iVBOR" |};
           {| text := "   "; image_b64 := "iVBOR" |}];
     groq_call := fun _ _ => Ok (Some "Summary") |}.

End MoreWorlds.

Unset Implicit Arguments.

(* ===================================================================== *)
(** * Facts about the text functions                                       *)
(* ===================================================================== *)

Module TextFacts.
Import Text.

Lemma startswith_iff (p s : string) :
  startswith s p = true <-> exists t, s = (p ++ t)%string.
Proof.
  revert s; induction p as [|a p IH]; intros s; simpl.
  - split; [intros _; now exists s | reflexivity].
  - destruct s as [|b s]; simpl.
    + split; [discriminate | intros [t Ht]; discriminate].
    + rewrite andb_true_iff, Ascii.eqb_eq, IH. split.
      * intros [-> [t ->]]. now exists t.
      * intros [t Ht]. injection Ht as -> ->. split; [reflexivity | now exists t].
Qed.

Lemma contains_iff (k s : string) :
  contains k s = true <-> Substring k s.
Proof.
  unfold Substring. induction s as [|c s IH].
  - cbn [contains]. rewrite orb_false_r, startswith_iff. split.
    + intros [t Ht]. now exists "", t.
    + intros [pre [post H]]. destruct pre; [now exists post | discriminate].
  - cbn [contains]. rewrite orb_true_iff, startswith_iff, IH. split.
    + intros [[t Ht] | [pre [post H]]].
      * now exists "", t.
      * exists (String c pre), post. simpl. now rewrite H.
    + intros [pre [post H]]. destruct pre as [|d pre].
      * left. now exists post.
      * right. simpl in H. injection H as _ H. now exists pre, post.
Qed.

Lemma any_in_iff (ks : list string) (s : string) :
  any_in ks s = true <-> exists k, In k ks /\ Substring k s.
Proof.
  unfold any_in. rewrite existsb_exists.
  split; intros [k [Hin H]]; exists k; split; trivial; now apply contains_iff.
Qed.

Lemma any_in_false_iff (ks : list string) (s : string) :
  any_in ks s = false <-> ~ exists k, In k ks /\ Substring k s.
Proof.
  rewrite <- any_in_iff. destruct (any_in ks s); split; intuition congruence.
Qed.

End TextFacts.

(* ===================================================================== *)
(** * Theorems: style-class inference                                      *)
(* ===================================================================== *)

Module InferClassFacts.
Import Text TextFacts InferClass.

Example infer_reject : _infer_class "Reject Bin" = "reject".
Proof. reflexivity. Qed.

Example infer_reject_wins : _infer_class "Accepted after ERROR check" = "reject".
Proof. reflexivity. Qed.

Example infer_accept : _infer_class "Dispatch" = "accept".
Proof. reflexivity. Qed.

Example infer_main : _infer_class "Cross Belt Sorter" = "main".
Proof. reflexivity. Qed.

Example infer_sub : _infer_class "Manual handling" = "sub".
Proof. reflexivity. Qed.

(** C9. [_infer_class] is a priority list over the lower-cased label: a
    reject keyword gives "reject"; failing that an accept keyword gives
    "accept"; failing that a core-equipment keyword gives "main" (the
    primary category); a label that matches nothing gives "sub" (the
    secondary category). The result is always one of the four categories,
    for every label. *)
Theorem infer_class_priority_list (label : string) :
  let L := lower label in
  (Mentions reject_keywords L -> _infer_class label = "reject") /\
  (~ Mentions reject_keywords L -> Mentions accept_keywords L ->
     _infer_class label = "accept") /\
  (~ Mentions reject_keywords L -> ~ Mentions accept_keywords L ->
     Mentions main_keywords L -> _infer_class label = "main") /\
  (~ Mentions reject_keywords L -> ~ Mentions accept_keywords L ->
     ~ Mentions main_keywords L -> _infer_class label = "sub") /\
  In (_infer_class label) ["reject"; "accept"; "main"; "sub"].
Proof.
  intros L. unfold _infer_class, Mentions. fold L.
  destruct (any_in reject_keywords L) eqn:Er;
    [| destruct (any_in accept_keywords L) eqn:Ea;
       [| destruct (any_in main_keywords L) eqn:Em]].
  all: repeat match goal with
       | H : any_in _ _ = true |- _ => apply any_in_iff in H
       | H : any_in _ _ = false |- _ => apply any_in_false_iff in H
       end.
  all: repeat split; intros; try reflexivity; try contradiction.
  all: simpl; auto.
Qed.

End InferClassFacts.

(* ===================================================================== *)
(** * Theorems: document composition                                       *)
(* ===================================================================== *)

Module DocxFacts.
Import Py Docx.

Lemma alter_last {A} (f : A -> A) (l : list A) (x : A) :
  alter f (length l) (l ++ [x]) = l ++ [f x].
Proof. induction l as [|y l IH]; simpl; [reflexivity | now rewrite IH]. Qed.

Lemma nth_last {A} (l : list A) (x d : A) : nth (length l) (l ++ [x]) d = x.
Proof. induction l as [|y l IH]; simpl; [reflexivity | exact IH]. Qed.

(** [_add_page_break] leaves the body as it was and ends it with one
    paragraph that holds one run that holds one page break. *)
Lemma add_page_break_body (d : Document) :
  body (_add_page_break d) = body d ++ [page_break_paragraph].
Proof.
  unfold _add_page_break, add_paragraph, add_run, add_break; simpl.
  rewrite nth_last, alter_last; simpl.
  now rewrite alter_last.
Qed.

Lemma merge_step_body (c : Composer) (buf : option BytesIO) :
  body (doc (merge_step c buf)) =
  body (doc c) ++
  match buf with
  | None => []
  | Some b => page_break_paragraph :: body (open_document b)
  end.
Proof.
  destruct buf as [b|]; cbn [merge_step append doc body].
  - rewrite add_page_break_body, <- app_assoc. reflexivity.
  - now rewrite app_nil_r.
Qed.

Lemma merge_loop_body (rest : list (option BytesIO)) (c : Composer) :
  body (doc (fold_left merge_step rest c)) =
  body (doc c) ++
  flat_map (fun b => page_break_paragraph :: body (open_document b)) (present rest).
Proof.
  revert c; induction rest as [|buf rest IH]; intros c; simpl.
  - now rewrite app_nil_r.
  - rewrite IH, merge_step_body.
    destruct buf as [b|]; simpl; rewrite <- app_assoc; reflexivity.
Qed.

(** Missing fragments leave no trace: the loop over a list does what the
    loop over its present fragments does. *)
Lemma merge_loop_skips (rest : list (option BytesIO)) (c : Composer) :
  fold_left merge_step rest c = fold_left merge_step (map Some (present rest)) c.
Proof.
  revert c; induction rest as [|[b|] rest IH]; intros c; simpl; auto.
Qed.

Lemma present_to_buffers (ds : list Document) :
  present (to_buffers ds) = map Saved ds.
Proof. induction ds as [|d ds IH]; simpl; [reflexivity | now rewrite IH]. Qed.

Lemma page_breaks_app (l1 l2 : list block) :
  page_breaks {| body := l1 ++ l2 |} =
  page_breaks {| body := l1 |} + page_breaks {| body := l2 |}.
Proof. unfold page_breaks; simpl. now rewrite filter_app, length_app. Qed.

Lemma page_breaks_joined (ds : list Document) :
  page_breaks {| body := flat_map (fun d => page_break_paragraph :: body d) ds |} =
  list_sum (map page_breaks ds) + length ds.
Proof.
  induction ds as [|d ds IH]; [reflexivity|].
  cbn [flat_map map length].
  change (page_break_paragraph :: body d ++ ?l)
    with ((page_break_paragraph :: body d) ++ l).
  rewrite page_breaks_app, IH.
  change (page_breaks {| body := page_break_paragraph :: body d |})
    with (S (page_breaks {| body := body d |})).
  change (list_sum (?x :: ?l)) with (x + list_sum l).
  destruct d as [bd]; cbn [body]. lia.
Qed.

Example merge_three :
  let cover := {| body := [Paragraph [[Text "Cover"]]] |} in
  let letter := {| body := [Paragraph [[Text "Dear Sir"]]; Table [["a"; "b"]]] |} in
  let summary := {| body := [Paragraph [[Text "Summary"]]] |} in
  merge_docx_files_with_page_breaks
    [Some (Saved cover); None; Some (Saved letter); Some (Saved summary)] =
  Ok (Saved {| body := [Paragraph [[Text "Cover"]];
                        Paragraph [[Break PAGE]];
                        Paragraph [[Text "Dear Sir"]]; Table [["a"; "b"]];
                        Paragraph [[Break PAGE]];
                        Paragraph [[Text "Summary"]]] |}).
Proof. reflexivity. Qed.

(** C4. The composer raises [ValueError], and gives no output, on the
    empty list and on a list whose first element is [None]; when the
    first element is there, the result is the one for the list with every
    later [None] dropped, and it is a document, not an error. *)
Theorem merge_needs_base_and_skips_missing :
  (exists msg, merge_docx_files_with_page_breaks [] = Raise (ValueError msg)) /\
  (forall rest, exists msg,
      merge_docx_files_with_page_breaks (None :: rest) = Raise (ValueError msg)) /\
  (forall b0 rest,
      merge_docx_files_with_page_breaks (Some b0 :: rest) =
      merge_docx_files_with_page_breaks (Some b0 :: map Some (present rest)) /\
      exists merged,
        merge_docx_files_with_page_breaks (Some b0 :: rest) = Ok (Saved merged) /\
        body merged =
        body (open_document b0) ++
        flat_map (fun b => page_break_paragraph :: body (open_document b))
                 (present rest)).
Proof.
  split; [|split].
  - eexists; reflexivity.
  - intros rest; eexists; reflexivity.
  - intros b0 rest. split.
    + unfold merge_docx_files_with_page_breaks. now rewrite merge_loop_skips.
    + eexists. split; [reflexivity|].
      cbn [doc]. now rewrite merge_loop_body.
Qed.

(** C5. Composing [n] present fragments [d0, d1, ..] gives the body of
    [d0] followed, for each later fragment in the listed order, by one
    page-break paragraph and then that fragment's body: the result holds
    the fragments' own page breaks and [n - 1] more. A single fragment
    comes back as it is. *)
Theorem merge_inserts_one_break_per_appended_fragment
    (d0 : Document) (ds : list Document) :
  let n := length (d0 :: ds) in
  (exists merged,
      merge_docx_files_with_page_breaks (to_buffers (d0 :: ds)) = Ok (Saved merged) /\
      body merged =
        body d0 ++ flat_map (fun d => page_break_paragraph :: body d) ds /\
      page_breaks merged = list_sum (map page_breaks (d0 :: ds)) + (n - 1)) /\
  merge_docx_files_with_page_breaks (to_buffers [d0]) = Ok (Saved d0).
Proof.
  intros n. split; [|reflexivity].
  exists (doc (fold_left merge_step (to_buffers ds) {| doc := d0 |})).
  split; [reflexivity|].
  assert (Hbody :
    body (doc (fold_left merge_step (to_buffers ds) {| doc := d0 |})) =
    body d0 ++ flat_map (fun d => page_break_paragraph :: body d) ds).
  { rewrite merge_loop_body, present_to_buffers. cbn [doc]. f_equal.
    clear. induction ds as [|d ds IH]; simpl; [reflexivity | now rewrite IH]. }
  split; [exact Hbody|].
  pose proof (page_breaks_app (body d0)
                (flat_map (fun d => page_break_paragraph :: body d) ds)) as Happ.
  rewrite page_breaks_joined in Happ.
  unfold page_breaks in *. rewrite Hbody.
  cbn [body] in Happ. rewrite Happ.
  subst n. cbn [length map].
  change (list_sum (?x :: ?l)) with (x + list_sum l). lia.
Qed.

End DocxFacts.

(* ===================================================================== *)
(** * Theorems: the rendering fallback chain                               *)
(* ===================================================================== *)

Module RendererFacts.
Import Py Renderer.

Section WithEnv.
Variable env : Env.

Lemma try_raster_run (e : endpoint) (code : string) (log : list call) :
  try_raster env e code log =
  (Ok (if raster_succeeds env e code
       then match http env e code with
            | Ok r => Some (content r)
            | Raise _ => None
            end
       else None),
   log ++ [Http e code]).
Proof.
  unfold try_raster, try_except, bind, external, raster_succeeds, ret.
  destruct (http env e code) as [r|ex]; [|reflexivity].
  destruct (ok r && truthy_bytes (content r))%bool; reflexivity.
Qed.

Lemma try_vector_fails (e : endpoint) (code : string) (log : list call) :
  vector_succeeds env e code = false ->
  exists log', try_vector env e code log = (Ok None, log').
Proof.
  unfold try_vector, try_except, bind, external, vector_succeeds, ret,
    _svg_bytes_to_png, rasterizes.
  destruct (http env e code) as [r|ex]; [|eauto].
  destruct (ok r); simpl; [|eauto].
  destruct (truthy_bytes (content r)); simpl; [|eauto].
  destruct (HAS_CAIROSVG env); simpl; [|eauto].
  unfold try_except, bind, external, ret.
  destruct (svg2png env (content r)) as [png|ex]; [|eauto].
  intros ->. eauto.
Qed.

Lemma try_vector_never_raises (e : endpoint) (code : string) (log : list call) :
  exists v log', try_vector env e code log = (Ok v, log').
Proof.
  unfold try_vector, try_except, bind, external, ret, _svg_bytes_to_png.
  destruct (http env e code) as [r|ex]; [|eauto].
  destruct (ok r); simpl; [|eauto].
  destruct (truthy_bytes (content r)); simpl; [|eauto].
  destruct (HAS_CAIROSVG env); simpl; [|eauto].
  unfold try_except, bind, external, ret.
  destruct (svg2png env (content r)) as [png|ex]; [|eauto].
  destruct (truthy_bytes png); eauto.
Qed.

Lemma via_chrome_fails (code : string) (log : list call) :
  succeeds env HeadlessBrowser code = false ->
  exists log', mermaid_to_png_via_chrome env code log = (Ok None, log').
Proof.
  unfold succeeds, mermaid_to_png_via_chrome, try_except, bind, external, ret.
  destruct (HAS_SELENIUM env && truthy_str code)%bool; simpl; [|eauto].
  destruct (screenshot env code); [discriminate | eauto].
Qed.

Lemma via_chrome_never_raises (code : string) (log : list call) :
  exists v log', mermaid_to_png_via_chrome env code log = (Ok v, log').
Proof.
  unfold mermaid_to_png_via_chrome, try_except, bind, external, ret.
  destruct (negb _); [eauto|].
  destruct (screenshot env code); eauto.
Qed.

Lemma via_kroki_fails (code : string) (log : list call) :
  succeeds env RemoteRaster code = false ->
  succeeds env RemoteVector code = false ->
  succeeds env PublicRaster code = false ->
  succeeds env PublicVector code = false ->
  exists log', mermaid_to_png_via_kroki env code log = (Ok None, log').
Proof.
  unfold succeeds, mermaid_to_png_via_kroki.
  destruct (HAS_REQUESTS env); simpl; [|intros; unfold ret; eauto].
  destruct (truthy_str code); simpl; [|intros; unfold ret; eauto].
  intros H1 H2 H3 H4.
  unfold or_else, bind at 1. rewrite try_raster_run, H1.
  unfold bind at 1.
  destruct (try_vector_fails KrokiSvg code (log ++ [Http KrokiPng code]) H2)
    as [l2 ->].
  unfold bind at 1. rewrite try_raster_run, H3.
  unfold bind at 1.
  destruct (try_vector_fails InkSvg code (l2 ++ [Http InkPng code]) H4)
    as [l4 ->].
  unfold ret. eauto.
Qed.

Lemma via_kroki_never_raises (code : string) (log : list call) :
  exists v log', mermaid_to_png_via_kroki env code log = (Ok v, log').
Proof.
  unfold mermaid_to_png_via_kroki.
  destruct (negb (HAS_REQUESTS env) || negb (truthy_str code))%bool;
    [unfold ret; eauto|].
  unfold or_else, bind at 1. rewrite try_raster_run.
  destruct (if raster_succeeds env KrokiPng code then _ else _);
    [unfold ret; eauto|].
  unfold bind at 1.
  destruct (try_vector_never_raises KrokiSvg code (log ++ [Http KrokiPng code]))
    as [v2 [l2 ->]].
  destruct v2; [unfold ret; eauto|].
  unfold bind at 1. rewrite try_raster_run.
  destruct (if raster_succeeds env InkPng code then _ else _);
    [unfold ret; eauto|].
  unfold bind at 1.
  destruct (try_vector_never_raises InkSvg code (l2 ++ [Http InkPng code]))
    as [v4 [l4 ->]].
  destruct v4; unfold ret; eauto.
Qed.

(** Whatever the outside world does, the renderer returns a value. *)
Lemma best_effort_never_raises (code : string) (log : list call) :
  exists v log', mermaid_to_png_best_effort env code log = (Ok v, log').
Proof.
  unfold mermaid_to_png_best_effort, bind.
  destruct (via_kroki_never_raises code log) as [v [l ->]].
  destruct v as [p|]; [destruct (truthy_bytes p); [unfold ret; eauto|]|];
    apply via_chrome_never_raises.
Qed.

End WithEnv.

Example kroki_up_run :
  mermaid_to_png_best_effort env_kroki_up "flowchart TD" [] =
  (Ok (Some ["P"; "N"; "G"]%byte), [Http KrokiPng "flowchart TD"]).
Proof. reflexivity. Qed.

Example all_down_run :
  mermaid_to_png_best_effort env_all_down "flowchart TD" [] =
  (Ok None,
   [Http KrokiPng "flowchart TD"; Http KrokiSvg "flowchart TD";
    Http InkPng "flowchart TD"; Http InkSvg "flowchart TD";
    Cairo ["<"; "s"; "v"; "g"]%byte]).
Proof. reflexivity. Qed.

(** C1. When every strategy of the chain fails for a diagram text (its
    package is missing, the call raised as a timeout does, the response was
    not a success, the body was empty), [mermaid_to_png_best_effort]
    returns [None]: it returns, and raises nothing. *)
Theorem best_effort_all_fail_returns_none
    (env : Env) (code : string) (log : list call) :
  (forall s, succeeds env s code = false) ->
  fst (mermaid_to_png_best_effort env code log) = Ok None.
Proof.
  intros H. unfold mermaid_to_png_best_effort, bind.
  destruct (via_kroki_fails env code log
              (H RemoteRaster) (H RemoteVector) (H PublicRaster) (H PublicVector))
    as [l ->].
  destruct (via_chrome_fails env code l (H HeadlessBrowser)) as [l' ->].
  reflexivity.
Qed.

Lemma best_effort_all_fail_witness :
  (forall s, succeeds env_all_down s "flowchart TD" = false) /\
  fst (mermaid_to_png_best_effort env_all_down "flowchart TD" []) = Ok None.
Proof.
  assert (H : forall s, succeeds env_all_down s "flowchart TD" = false)
    by (intros []; reflexivity).
  split; [exact H|].
  exact (best_effort_all_fail_returns_none env_all_down "flowchart TD" [] H).
Defined.

(** C2. When the first strategy (the remote service asked for a raster
    image) answers a diagram text with a successful, non-empty response,
    the renderer returns exactly the bytes of that response, and the one
    request that fetched them is the only external call it makes: no later
    strategy is invoked. *)
Theorem best_effort_short_circuits
    (env : Env) (code : string) (log : list call) (r : Response) :
  HAS_REQUESTS env = true ->
  code <> ""%string ->
  http env KrokiPng code = Ok r ->
  ok r = true ->
  content r <> [] ->
  mermaid_to_png_best_effort env code log =
  (Ok (Some (content r)), log ++ [Http KrokiPng code]).
Proof.
  intros Hreq Hcode Hhttp Hok Hbody.
  assert (Hc : truthy_str code = true) by (destruct code; [congruence | reflexivity]).
  assert (Hb : truthy_bytes (content r) = true)
    by (unfold truthy_bytes; destruct (content r); [congruence | reflexivity]).
  unfold mermaid_to_png_best_effort, mermaid_to_png_via_kroki.
  rewrite Hreq, Hc; simpl.
  unfold or_else, bind at 1. unfold bind at 1.
  rewrite try_raster_run. unfold raster_succeeds.
  rewrite Hhttp, Hok, Hb; simpl.
  unfold ret. now rewrite Hb.
Qed.

Lemma best_effort_short_circuits_witness :
  mermaid_to_png_best_effort env_kroki_up "flowchart TD" [] =
  (Ok (Some ["P"; "N"; "G"]%byte), [] ++ [Http KrokiPng "flowchart TD"]).
Proof.
  apply (best_effort_short_circuits env_kroki_up "flowchart TD" []
           {| ok := true; content := ["P"; "N"; "G"]%byte |}).
  - reflexivity.
  - discriminate.
  - reflexivity.
  - reflexivity.
  - discriminate.
Defined.

End RendererFacts.

(* ===================================================================== *)
(** * Theorems: prose generation                                           *)
(* ===================================================================== *)

Module ProseGenFacts.
Import Py Text ProseGen.

Lemma or_str_some (x : string) : or_str (Some x) "" = x.
Proof. destruct x; reflexivity. Qed.

(** Whichever future finishes first, slot [i] of the pair comes from the
    call of slot [i], and exactly two calls are submitted. *)
Lemma two_candidates_run (env : Env) (label : string) (order : list nat)
    (sub : Submission) (pool : list Submission) :
  Permutation [0; 1] order ->
  two_candidates env label order sub pool =
  (Ok (slot_text label (groq_call env 0 sub), slot_text label (groq_call env 1 sub)),
   pool ++ [sub; sub]).
Proof.
  intros Hperm.
  replace (pool ++ [sub; sub]) with ((pool ++ [sub]) ++ [sub])
    by (rewrite <- app_assoc; reflexivity).
  apply Permutation_length_2_inv in Hperm.
  unfold two_candidates, bind, submit, ret.
  destruct Hperm as [-> | ->]; cbn [as_completed flat_map nth_error app collect].
  all: unfold bind, try_except, future_result, ret; cbn [slot task].
  all: destruct (groq_call env 0 sub) as [c0|e0], (groq_call env 1 sub) as [c1|e1].
  all: cbn [set_item nth slot_text]; rewrite ?or_str_some; reflexivity.
Qed.

Example cover_letters_first_fails_late :
  fst (generate_cover_letters_concurrent env_first_fails [1; 0]
         "A. Roy" "Sales Head" "ACME" "Mr. X" "OFF-1" "Sorter" None (Some "01-11-2026") [])
  = Ok ("Cover letter generation failed: rate limit", "Dear Sir").
Proof. reflexivity. Qed.

Example cover_letters_first_fails_early :
  fst (generate_cover_letters_concurrent env_first_fails [0; 1]
         "A. Roy" "Sales Head" "ACME" "Mr. X" "OFF-1" "Sorter" None (Some "01-11-2026") [])
  = Ok ("Cover letter generation failed: rate limit", "Dear Sir").
Proof. reflexivity. Qed.

(** C6, as the code has it. For every completion order of the two futures:
    a cover-letter request, and an executive-summary request whose PDF was
    read into at least one page, submit exactly two calls with the same
    prompts, and slot [i] of the returned pair is the text of call [i], or
    the diagnostic placeholder built from the exception of call [i]; the
    other slot is not touched by that failure. An executive-summary request
    whose PDF cannot be read, or has no page, submits no call and returns the
    same diagnostic text in both slots. In every case the function returns a
    pair of strings and raises nothing. *)
Theorem candidates_fill_fixed_slots
    (env : Env) (order : list nat) (pool : list Submission) :
  Permutation [0; 1] order ->
  (forall sender_name sender_title client_name executives offer_ref project_title
          invitation_date meeting_date,
      exists sub,
        fn sub = _groq_cover_letter_call /\
        generate_cover_letters_concurrent env order sender_name sender_title
          client_name executives offer_ref project_title invitation_date
          meeting_date pool =
        (Ok (slot_text "Cover letter generation failed: " (groq_call env 0 sub),
             slot_text "Cover letter generation failed: " (groq_call env 1 sub)),
         pool ++ [sub; sub])) /\
  (forall pdf_path client_name project_name,
      let run := generate_exec_summaries_concurrent env order pdf_path
                   client_name project_name pool in
      match pdf_to_images_and_text env pdf_path with
      | Raise e =>
          run = (Ok (("PDF parsing failed: " ++ str_of_exn e)%string,
                     ("PDF parsing failed: " ++ str_of_exn e)%string), pool)
      | Ok [] =>
          run = (Ok ("No pages found in PDF.", "No pages found in PDF."), pool)
      | Ok (_ :: _) =>
          exists sub,
            fn sub = _groq_exec_summary_call /\
            run =
            (Ok (slot_text "Executive summary generation failed: " (groq_call env 0 sub),
                 slot_text "Executive summary generation failed: " (groq_call env 1 sub)),
             pool ++ [sub; sub])
      end).
Proof.
  intros Hperm. split.
  - intros. eexists. split; [|unfold generate_cover_letters_concurrent;
                               apply two_candidates_run; exact Hperm].
    reflexivity.
  - intros pdf_path client_name project_name run. subst run.
    unfold generate_exec_summaries_concurrent, bind at 1, try_except, bind at 1.
    destruct (pdf_to_images_and_text env pdf_path) as [[|pg pages]|e];
      cbn [truthy_list negb ret].
    + reflexivity.
    + eexists. split; [|apply two_candidates_run; exact Hperm]. reflexivity.
    + reflexivity.
Qed.

Lemma candidates_fill_fixed_slots_witness :
  exists sub,
    fn sub = _groq_cover_letter_call /\
    generate_cover_letters_concurrent env_first_fails [1; 0]
      "A. Roy" "Sales Head" "ACME" "Mr. X" "OFF-1" "Sorter" None None [] =
    (Ok (slot_text "Cover letter generation failed: " (groq_call env_first_fails 0 sub),
         slot_text "Cover letter generation failed: " (groq_call env_first_fails 1 sub)),
     [] ++ [sub; sub]).
Proof.
  apply (proj1 (candidates_fill_fixed_slots env_first_fails [1; 0] []
                  (perm_swap 1 0 []))).
Defined.

(** C6 as stated fails: an executive-summary request on a PDF without pages
    issues neither of the two calls. *)
Lemma exec_summaries_empty_pdf_issues_no_call :
  let run := generate_exec_summaries_concurrent env_empty_pdf [0; 1]
               "rfq.pdf" "ACME" "Sorter" [] in
  fst run = Ok ("No pages found in PDF.", "No pages found in PDF.") /\
  snd run = [] /\
  length (snd run) <> 2.
Proof. cbv. repeat split. discriminate. Qed.

End ProseGenFacts.

(* ===================================================================== *)
(** * Theorems: diagram synthesis                                          *)
(* ===================================================================== *)

Module SynthFacts.
Import Py Text Synth.

Lemma append_assoc (a b c : string) : ((a ++ b) ++ c = a ++ (b ++ c))%string.
Proof. induction a as [|x a IH]; simpl; [reflexivity | now rewrite IH]. Qed.

Lemma length_append (a b : string) :
  String.length (a ++ b) = String.length a + String.length b.
Proof. induction a as [|x a IH]; simpl; [reflexivity | now rewrite IH]. Qed.

(** A whitespace character is not a letter: it is its own lower case, and
    no letter of the keyword. *)
Lemma space_not_f (c : ascii) :
  is_space c = true -> Ascii.eqb "f" (lower_char c) = false.
Proof.
  destruct c as [[] [] [] [] [] [] [] []]; vm_compute; congruence.
Qed.

Lemma rstrip_tail (c : ascii) (t : string) :
  rstrip (String c t) = String c t -> rstrip t = t.
Proof.
  simpl. destruct (rstrip t) as [|d t'] eqn:E.
  - destruct (is_space c); [discriminate|]. intros H. now injection H as <-.
  - intros H. now injection H as <-.
Qed.

(** A text that [rstrip] leaves alone and that is not empty holds a
    character that is not whitespace. *)
Lemma rstrip_fixed_has_ink (s : string) :
  rstrip s = s -> s <> EmptyString -> lstrip s <> EmptyString.
Proof.
  induction s as [|c t IH]; intros Hr Hne; [congruence|].
  simpl. destruct (is_space c) eqn:Ec; [|discriminate].
  apply IH; [exact (rstrip_tail _ _ Hr)|].
  intros ->. simpl in Hr. rewrite Ec in Hr. discriminate.
Qed.

Lemma lstrip_append (s x : string) :
  lstrip s <> EmptyString -> lstrip (s ++ x) = (lstrip s ++ x)%string.
Proof.
  induction s as [|c t IH]; intros H; [now contradiction H|].
  simpl in *. destruct (is_space c); [now apply IH | reflexivity].
Qed.

Lemma rstrip_append (a b : string) :
  rstrip b = b -> b <> EmptyString -> rstrip (a ++ b) = (a ++ b)%string.
Proof.
  intros Hb Hne. induction a as [|c a IH]; simpl; [exact Hb|].
  rewrite IH. destruct (a ++ b)%string eqn:E; [|reflexivity].
  destruct a; simpl in E; [congruence | discriminate].
Qed.

(** A text inside a pair of fences has no whitespace around it. *)
Lemma strip_fenced (m : string) :
  strip (or_str (Some (fence ++ m ++ fence)%string) "") = (fence ++ m ++ fence)%string.
Proof.
  unfold strip. change (or_str (Some (fence ++ m ++ fence)%string) "")
    with (fence ++ m ++ fence)%string.
  change (lstrip (fence ++ m ++ fence)) with (fence ++ m ++ fence)%string.
  rewrite <- append_assoc. apply rstrip_append; [reflexivity | discriminate].
Qed.

(** The closing fence comes off a text that has no trailing whitespace, and
    nothing else does. *)
Lemma sub_closing_fence_body (s : string) :
  rstrip s = s -> sub_closing_fence (s ++ nl ++ fence) = s.
Proof.
  induction s as [|c t IH]; intros Hr; [reflexivity|].
  change (String c t ++ nl ++ fence)%string
    with (String c (t ++ nl ++ fence)%string).
  cbn [sub_closing_fence]. unfold closing_fence_here.
  change (String c (t ++ nl ++ fence)%string)
    with (String c t ++ (nl ++ fence))%string.
  rewrite lstrip_append by (apply rstrip_fixed_has_ink; [exact Hr | discriminate]).
  pose proof (rstrip_fixed_has_ink (String c t) Hr ltac:(discriminate)) as Hink.
  destruct (lstrip (String c t)) as [|d r] eqn:El; [congruence|].
  assert (Hlen : 5 <= String.length (String d r ++ nl ++ fence))
    by (rewrite length_append; simpl; lia).
  destruct (String.eqb_spec (String d r ++ nl ++ fence) fence) as [E|_];
    [rewrite E in Hlen; simpl in Hlen; lia|].
  destruct (String.eqb_spec (String d r ++ nl ++ fence) (fence ++ nl)) as [E|_];
    [rewrite E in Hlen; simpl in Hlen; lia|].
  simpl. f_equal. apply IH. exact (rstrip_tail _ _ Hr).
Qed.

Lemma starts_flowchart_lstrip (body : string) :
  startswith (lower body) "flowchart" = true -> lstrip body = body.
Proof.
  destruct body as [|c t]; [discriminate|].
  cbn [startswith lower lstrip]. destruct (is_space c) eqn:Ec; [|reflexivity].
  now rewrite (space_not_f c Ec).
Qed.

Lemma truthy_flowchart (code : string) :
  startswith (lower code) "flowchart" = true -> truthy_str code = true.
Proof. destruct code; [discriminate | reflexivity]. Qed.

(** The cleaning takes a fenced diagram out of its fences, with or without
    the language tag after the opening fence. *)
Lemma clean_response_fenced (tag body : string) :
  tag = EmptyString \/ tag = "mermaid" ->
  strip body = body ->
  startswith (lower body) "flowchart" = true ->
  clean_response (Some (fence ++ tag ++ nl ++ body ++ nl ++ fence)%string) = body.
Proof.
  intros Htag Hstrip Hkw.
  pose proof (starts_flowchart_lstrip body Hkw) as Hl.
  assert (Hr : rstrip body = body) by (unfold strip in Hstrip; now rewrite Hl in Hstrip).
  unfold clean_response.
  assert (Hs : strip (or_str (Some (fence ++ tag ++ nl ++ body ++ nl ++ fence)%string) "")
               = (fence ++ tag ++ nl ++ body ++ nl ++ fence)%string).
  { replace (fence ++ tag ++ nl ++ body ++ nl ++ fence)%string
      with (fence ++ (tag ++ nl ++ body ++ nl) ++ fence)%string
      by (now rewrite !append_assoc).
    apply strip_fenced. }
  rewrite Hs.
  assert (Ho : sub_opening_fence (fence ++ tag ++ nl ++ body ++ nl ++ fence)%string
               = (body ++ nl ++ fence)%string).
  { destruct Htag as [-> | ->]; unfold sub_opening_fence; simpl.
    - destruct body as [|c t]; [discriminate|].
      cbn [append lstrip]. destruct (is_space c) eqn:Ec; [|reflexivity].
      cbn [startswith lower] in Hkw. now rewrite (space_not_f c Ec) in Hkw.
    - destruct body as [|c t]; [discriminate|].
      cbn [append lstrip]. destruct (is_space c) eqn:Ec; [|reflexivity].
      cbn [startswith lower] in Hkw. now rewrite (space_not_f c Ec) in Hkw. }
  rewrite Ho, (sub_closing_fence_body body Hr), Hkw. reflexivity.
Qed.

Example clean_fenced :
  clean_response (Some ("```mermaid" ++ nl ++ "flowchart TD" ++ nl ++ "A-->B"
                        ++ nl ++ "```")%string)
  = ("flowchart TD" ++ nl ++ "A-->B")%string.
Proof. reflexivity. Qed.

Example clean_salvages_tail :
  clean_response (Some ("Sure! flowchart  td" ++ nl ++ "A-->B  ")%string)
  = ("flowchart  td" ++ nl ++ "A-->B")%string.
Proof. reflexivity. Qed.

Example clean_keeps_inner_fence :
  clean_response (Some ("```" ++ nl ++ "Flowchart LR" ++ nl ++ "``` ```")%string)
  = ("Flowchart LR" ++ nl ++ "```")%string.
Proof. reflexivity. Qed.

Example clean_needs_text_after_td :
  clean_response (Some "x flowchart TD") = "x flowchart TD".
Proof. reflexivity. Qed.

Example clean_four_backticks : clean_response (Some "abc````") = "abc`".
Proof. reflexivity. Qed.

Lemma space_lower (c : ascii) : is_space c = true -> is_space (lower_char c) = true.
Proof. destruct c as [[] [] [] [] [] [] [] []]; vm_compute; congruence. Qed.

Lemma rstrip_ink (c : ascii) (t : string) :
  is_space c = false -> rstrip (String c t) = String c (rstrip t).
Proof. intros H. simpl. rewrite H. now destruct (rstrip t). Qed.

Lemma rstrip_keeps_prefix (p s : string) :
  no_space p = true ->
  startswith (lower s) p = true -> startswith (lower (rstrip s)) p = true.
Proof.
  revert s; induction p as [|a p IH]; intros s Hp Hs; [reflexivity|].
  destruct s as [|c t]; [discriminate|].
  cbn [startswith lower no_space] in *.
  apply andb_true_iff in Hp as [Ha Hp], Hs as [Hc Hs].
  apply Ascii.eqb_eq in Hc. subst a.
  assert (Ec : is_space c = false).
  { destruct (is_space c) eqn:E; [|reflexivity].
    rewrite (space_lower c E) in Ha. discriminate. }
  rewrite (rstrip_ink c t Ec). cbn [startswith lower].
  now rewrite Ascii.eqb_refl, IH.
Qed.

(** What is kept in the session begins with the keyword. *)
Lemma strip_keeps_keyword (code : string) :
  startswith (lower code) "flowchart" = true ->
  startswith (lower (strip code)) "flowchart" = true.
Proof.
  intros H. unfold strip. rewrite (starts_flowchart_lstrip code H).
  now apply rstrip_keeps_prefix.
Qed.

(** The request with a text and a client: one call, one validation. *)
Lemma generate_flowchart_run (w : World) (txt : string)
    (r : result (option string)) (rest : list (result (option string))) :
  txt <> EmptyString ->
  groq_key_ok w = true ->
  pending w = r :: rest ->
  let code := match r with
              | Ok content => clean_response content
              | Raise _ => EmptyString
              end in
  generate_flowchart (Some (Ok txt)) w =
  (Ok tt,
   {| groq_key_ok := groq_key_ok w;
      pending := rest;
      requests := requests w ++ [user_message txt];
      mermaid_code := if startswith (lower code) "flowchart"
                      then Some (strip code) else mermaid_code w;
      shown := shown w ++
               [if startswith (lower code) "flowchart"
                then st_success "Flowchart generated from PDF."
                else invalid_notice] |}).
Proof.
  intros Htxt Hkey Hpend code.
  assert (Ht : truthy_str txt = true) by (destruct txt; [congruence | reflexivity]).
  unfold generate_flowchart, bind at 1, try_except at 1, bind at 1. rewrite Ht.
  unfold try_except, bind at 1, load_groq. rewrite Hkey.
  unfold ask_llm_mermaid, bind at 1, chat_completions_create. rewrite Hpend.
  cbn [tl]. subst code. destruct r as [content|e].
  - unfold ret at 1.
    destruct (startswith (lower (clean_response content)) "flowchart") eqn:Ev.
    + rewrite (truthy_flowchart _ Ev).
      unfold bind, set_mermaid_code, st_show, modify; cbn [negb orb].
      cbn [groq_key_ok pending requests mermaid_code shown].
      now rewrite ?Hkey.
    + rewrite orb_true_r.
      unfold st_show, modify; cbn [groq_key_ok pending requests mermaid_code shown].
      now rewrite ?Hkey.
  - unfold ret, st_show, modify; cbn.
    now rewrite ?Hkey.
Qed.

(** Whatever the request and the world, the handler returns, and it calls
    the service once at most. *)
Lemma generate_flowchart_calls (w : World) (pdf : option (result string)) :
  fst (generate_flowchart pdf w) = Ok tt /\
  exists sent,
    requests (snd (generate_flowchart pdf w)) = requests w ++ sent /\
    length sent <= 1.
Proof.
  assert (Hnone : forall l : list string, l = l ++ [] /\ length (@nil string) <= 1)
    by (intros l; rewrite app_nil_r; split; [reflexivity | simpl; lia]).
  destruct pdf as [[txt|e]|].
  - destruct txt as [|c t].
    + split; [reflexivity|]. exists []. apply Hnone.
    + destruct (groq_key_ok w) eqn:Hkey.
      * destruct (pending w) as [|r rest] eqn:Hpend.
        -- cbv beta iota delta [generate_flowchart bind try_except load_groq
             ask_llm_mermaid chat_completions_create truthy_str raise ret].
           rewrite Hkey. cbv beta iota zeta. rewrite Hpend. split; [reflexivity|].
           exists [user_message (String c t)]. split; [reflexivity | simpl; lia].
        -- rewrite (generate_flowchart_run w (String c t) r rest
                      ltac:(discriminate) Hkey Hpend).
           split; [reflexivity|].
           exists [user_message (String c t)]. split; [reflexivity | simpl; lia].
      * cbv beta iota delta [generate_flowchart bind try_except load_groq
          ask_llm_mermaid chat_completions_create truthy_str raise ret].
        rewrite Hkey. split; [reflexivity|]. exists []. apply Hnone.
  - split; [reflexivity|]. exists []. apply Hnone.
  - split; [reflexivity|]. exists []. apply Hnone.
Qed.

Example generate_fenced :
  snd (generate_flowchart (Some (Ok "Parcels are inducted and sorted."))
         world_fenced_answer) =
  {| groq_key_ok := true;
     pending := [];
     requests := [user_message "Parcels are inducted and sorted."];
     mermaid_code := Some ("flowchart TD" ++ nl ++ "A-->B")%string;
     shown := [st_success "Flowchart generated from PDF."] |}.
Proof. reflexivity. Qed.

(** C3, as the code has it. The response is cleaned of an enclosing code
    fence (with or without the [mermaid] tag) and checked to begin, in any
    letter case, with the keyword "flowchart". A request with a text and a
    client calls the service exactly once: when the cleaned response begins
    with the keyword it is kept in the session (and what is kept begins with
    the keyword), and otherwise the error notice is shown at once, the
    session's diagram is left as it was, and the next answer of the service
    is not asked for. No request calls the service more than once, and none
    raises. *)
Theorem synthesis_validates_once_without_retry :
  (forall tag body,
      tag = EmptyString \/ tag = "mermaid" ->
      strip body = body ->
      startswith (lower body) "flowchart" = true ->
      clean_response (Some (fence ++ tag ++ nl ++ body ++ nl ++ fence)%string) = body) /\
  (forall w txt r rest,
      txt <> EmptyString ->
      groq_key_ok w = true ->
      pending w = r :: rest ->
      let code := match r with
                  | Ok content => clean_response content
                  | Raise _ => EmptyString
                  end in
      let valid := startswith (lower code) "flowchart" in
      generate_flowchart (Some (Ok txt)) w =
      (Ok tt,
       {| groq_key_ok := groq_key_ok w;
          pending := rest;
          requests := requests w ++ [user_message txt];
          mermaid_code := if valid then Some (strip code) else mermaid_code w;
          shown := shown w ++
                   [if valid then st_success "Flowchart generated from PDF."
                    else invalid_notice] |}) /\
      (valid = true -> startswith (lower (strip code)) "flowchart" = true)) /\
  (forall w pdf,
      fst (generate_flowchart pdf w) = Ok tt /\
      exists sent,
        requests (snd (generate_flowchart pdf w)) = requests w ++ sent /\
        length sent <= 1).
Proof.
  split; [exact clean_response_fenced | split].
  - intros w txt r rest Htxt Hkey Hpend code valid. split.
    + exact (generate_flowchart_run w txt r rest Htxt Hkey Hpend).
    + apply strip_keeps_keyword.
  - exact generate_flowchart_calls.
Qed.

(** C3 as stated fails: the first answer of the service is not a diagram
    and the second would be; the handler calls the service once, shows the
    error and leaves the second answer unasked. *)
Lemma no_retry_after_invalid_answer :
  let w' := snd (generate_flowchart (Some (Ok "Parcels are inducted and sorted."))
                   world_second_answer_valid) in
  length (requests w') = 1 /\
  length (requests w') <> 2 /\
  pending w' = [Ok (Some ("flowchart TD" ++ nl ++ "A-->B")%string)] /\
  mermaid_code w' = None /\
  shown w' = [invalid_notice].
Proof. vm_compute. repeat split. discriminate. Qed.

End SynthFacts.

(* ===================================================================== *)
(** * Theorems: the refresh button and its cooldown                        *)
(* ===================================================================== *)

Module EditorFacts.
Import Py Text Editor.

Example refresh_without_click :
  log (snd (refresh_button link_of false world_just_refreshed)) =
  [Shown (WaitCaption 2)].
Proof. vm_compute. reflexivity. Qed.

(** C7 on the code. The preview was refreshed at second 100 and the button
    is clicked again at second 101, inside the three-second cooldown: the
    page shows the caption "Wait 2s", and then exports from the editor
    session all the same, replaces the viewer link and moves the time of the
    last refresh to second 101. The flag the debounce lines set does not
    guard the button. *)
Theorem refresh_in_cooldown_still_exports :
  let w' := snd (refresh_button link_of true world_just_refreshed) in
  in_cooldown world_just_refreshed = true /\
  log w' = [Shown (WaitCaption 2); ReadCurrentUrl; ReadCurrentUrl;
            ExportXml 900; Rerun] /\
  export_calls (log w') = 1 /\
  viewer_url (fs w') = Some (link_of sample_xml) /\
  viewer_url (fs w') <> viewer_url (fs world_just_refreshed) /\
  last_refresh_ts (fs w') = Some (101 # 1)%Q.
Proof. vm_compute. repeat split. discriminate. Qed.

End EditorFacts.

(* ===================================================================== *)
(** * Theorems: the viewer link                                            *)
(* ===================================================================== *)

Module ViewerFacts.
Import Py Text Viewer.

Local Open Scope N_scope.

(** Linear arithmetic with division and remainder by constants. *)
Ltac lia_div := zify; Z.to_euclidean_division_equations; lia.

Ltac ltb_true := rewrite (proj2 (N.ltb_lt _ _)) by lia_div.
Ltac ltb_false := rewrite (proj2 (N.ltb_ge _ _)) by lia_div.

Lemma to_N_byte_of_N (n : N) : n < 256 -> Byte.to_N (byte_of_N n) = n.
Proof.
  intros H. unfold byte_of_N.
  destruct (Byte.of_N n) as [b|] eqn:E.
  - now apply Byte.to_of_N.
  - apply Byte.of_N_None_iff in E. lia.
Qed.

Lemma byte_of_to_N (b : byte) : byte_of_N (Byte.to_N b) = b.
Proof. unfold byte_of_N. now rewrite Byte.of_to_N. Qed.

Lemma to_N_lt (b : byte) : Byte.to_N b < 256.
Proof. pose proof (Byte.to_N_bounded b). lia. Qed.

Lemma continuation_payload (x : N) :
  x < 64 -> continuation (byte_of_N (0x80 + x)) = Some x.
Proof.
  intros H. unfold continuation.
  rewrite to_N_byte_of_N by lia.
  rewrite (proj2 (N.leb_le _ _)) by lia. ltb_true.
  cbn [andb]. f_equal. lia.
Qed.

Lemma some_inj {A : Type} (x y : A) : Some x = Some y -> x = y.
Proof. congruence. Qed.

Lemma decode_one (c : N) (bs rest : bytes) :
  encode_codepoint c = Some bs ->
  decode_utf8 (bs ++ rest) = option_map (cons c) (decode_utf8 rest).
Proof.
  unfold encode_codepoint.
  destruct (N.ltb_spec c 0x80) as [H1|H1].
  { intros E; apply some_inj in E; subst bs. cbn [app decode_utf8].
    rewrite to_N_byte_of_N by lia. now ltb_true. }
  destruct (N.ltb_spec c 0x800) as [H2|H2].
  { intros E; apply some_inj in E; subst bs. cbn [app decode_utf8].
    rewrite to_N_byte_of_N by lia_div.
    ltb_false. ltb_false. ltb_true.
    rewrite continuation_payload by lia_div.
    replace ((0xC0 + c / 64 - 0xC0) * 64 + c mod 64) with c by lia_div.
    now ltb_false. }
  destruct (N.ltb_spec c 0x10000) as [H3|H3].
  { destruct (is_surrogate c) eqn:Hs; [discriminate|].
    intros E; apply some_inj in E; subst bs. cbn [app decode_utf8].
    rewrite to_N_byte_of_N by lia_div.
    ltb_false. ltb_false. ltb_false. ltb_true.
    rewrite !continuation_payload by lia_div.
    replace ((0xE0 + c / 4096 - 0xE0) * 4096 + (c / 64) mod 64 * 64 + c mod 64)
      with c by lia_div.
    ltb_false. now rewrite Hs. }
  destruct (N.ltb_spec c 0x110000) as [H4|H4]; [|discriminate].
  intros E; apply some_inj in E; subst bs. cbn [app decode_utf8].
  rewrite to_N_byte_of_N by lia_div.
  ltb_false. ltb_false. ltb_false. ltb_false. ltb_true.
  rewrite !continuation_payload by lia_div.
  replace ((0xF0 + c / 262144 - 0xF0) * 262144 + (c / 4096) mod 64 * 4096
           + (c / 64) mod 64 * 64 + c mod 64) with c by lia_div.
  ltb_false. now ltb_true.
Qed.

(** UTF-8 decoding undoes UTF-8 encoding. *)
Lemma decode_encode_utf8 (s : str) (raw : bytes) :
  encode_utf8 s = Ok raw -> decode_utf8 raw = Some s.
Proof.
  revert raw; induction s as [|c t IH]; intros raw; cbn [encode_utf8].
  - now intros [= <-].
  - destruct (encode_codepoint c) as [bs|] eqn:Ec; [|discriminate].
    destruct (encode_utf8 t) as [rest|e]; [|discriminate].
    intros [= <-]. rewrite (decode_one c bs rest Ec), (IH rest eq_refl).
    reflexivity.
Qed.

(** Every text made of scalar values has a UTF-8 encoding. *)
Lemma encode_utf8_scalar (s : str) :
  forallb scalar s = true -> exists raw, encode_utf8 s = Ok raw.
Proof.
  induction s as [|c t IH]; cbn [forallb encode_utf8]; [eauto|].
  intros H. apply andb_true_iff in H as [Hc Ht].
  destruct (IH Ht) as [rest ->].
  unfold scalar in Hc. apply andb_true_iff in Hc as [Hlt Hns].
  apply negb_true_iff in Hns. apply N.ltb_lt in Hlt.
  unfold encode_codepoint. rewrite Hns.
  destruct (c <? 0x80); [eauto|].
  destruct (c <? 0x800); [eauto|].
  destruct (c <? 0x10000); [eauto|].
  rewrite (proj2 (N.ltb_lt _ _) Hlt). eauto.
Qed.

(** The alphabet is read back as it is written, and none of its characters
    is the padding character. *)
Lemma b64_index_char (x : N) :
  x < 64 -> b64_index (b64_char x) = Some x /\ Ascii.eqb (b64_char x) pad = false.
Proof.
  intros H.
  assert (Hall : forallb (fun k => match b64_index (b64_char k) with
                                   | Some j => (j =? k) && negb (Ascii.eqb (b64_char k) pad)
                                   | None => false
                                   end)%bool
                         (map N.of_nat (seq 0 64)) = true) by (vm_compute; reflexivity).
  rewrite forallb_forall in Hall.
  specialize (Hall x). 
  assert (Hin : In x (map N.of_nat (seq 0 64))).
  { rewrite <- (N2Nat.id x). apply in_map. apply in_seq. lia. }
  specialize (Hall Hin).
  destruct (b64_index (b64_char x)) as [j|]; [|discriminate].
  apply andb_true_iff in Hall as [Hj Hp].
  apply N.eqb_eq in Hj. apply negb_true_iff in Hp. now subst j.
Qed.

Ltac b64_chars :=
  repeat match goal with
  | |- context [b64_index (b64_char ?x)] =>
      rewrite (proj1 (b64_index_char x ltac:(lia_div)))
  | |- context [Ascii.eqb (b64_char ?x) pad] =>
      rewrite (proj2 (b64_index_char x ltac:(lia_div)))
  end.

(** Base64 decoding undoes base64 encoding. *)
Lemma b64decode_b64encode (bs : bytes) : b64decode (b64encode bs) = Some bs.
Proof.
  assert (H : forall k bs, (length bs <= k)%nat -> b64decode (b64encode bs) = Some bs).
  { clear bs. induction k as [|k IH]; intros bs Hlen.
    - destruct bs; [reflexivity | simpl in Hlen; lia].
    - destruct bs as [|a [|b [|c rest]]]; [reflexivity | | |].
      + pose proof (to_N_lt a).
        cbn [b64encode b64decode]. b64_chars.
        rewrite Ascii.eqb_refl. cbn [andb is_empty].
        do 2 f_equal.
        replace ((Byte.to_N a * 65536 / 262144 * 262144
                  + (Byte.to_N a * 65536 / 4096) mod 64 * 4096) / 65536)
          with (Byte.to_N a) by lia_div.
        apply byte_of_to_N.
      + pose proof (to_N_lt a). pose proof (to_N_lt b).
        cbn [b64encode b64decode]. b64_chars.
        rewrite Ascii.eqb_refl. cbn [is_empty].
        set (n := Byte.to_N a * 65536 + Byte.to_N b * 256).
        replace (n / 262144 * 262144 + (n / 4096) mod 64 * 4096
                 + (n / 64) mod 64 * 64) with n by (subst n; lia_div).
        replace (n / 65536) with (Byte.to_N a) by (subst n; lia_div).
        replace ((n / 256) mod 256) with (Byte.to_N b) by (subst n; lia_div).
        now rewrite !byte_of_to_N.
      + pose proof (to_N_lt a). pose proof (to_N_lt b). pose proof (to_N_lt c).
        cbn [b64encode b64decode]. b64_chars.
        set (n := Byte.to_N a * 65536 + Byte.to_N b * 256 + Byte.to_N c).
        replace (n / 262144 * 262144 + (n / 4096) mod 64 * 4096
                 + (n / 64) mod 64 * 64 + n mod 64) with n by (subst n; lia_div).
        replace (n / 65536) with (Byte.to_N a) by (subst n; lia_div).
        replace ((n / 256) mod 256) with (Byte.to_N b) by (subst n; lia_div).
        replace (n mod 256) with (Byte.to_N c) by (subst n; lia_div).
        rewrite !byte_of_to_N, IH by (simpl in Hlen; lia).
        reflexivity. }
  apply (H (length bs)). lia.
Qed.

Lemma after_prefix_append (p s : string) : after_prefix p (p ++ s) = Some s.
Proof.
  induction p as [|a p IH]; cbn [after_prefix append]; [now destruct s|].
  now rewrite Ascii.eqb_refl.
Qed.

Example sample_link :
  xml_to_viewer_url deflate_stored sample_markup =
  Ok "https://viewer.diagrams.net/?lightbox=1&nav=1&layers=1&noSaveBtn=1#RATIAzf88bXhmaWxlPjxkaWFncmFtPlNvcnRlciDihpLwn5OmPC9kaWFncmFtPjwvbXhmaWxlPg==".
Proof. vm_compute. reflexivity. Qed.

Section Zlib.

Variable deflate : bytes -> bytes.
Variable inflate : bytes -> option bytes.

(** The contract of zlib: inflating a raw deflate stream gives back the
    bytes that were compressed. *)
Hypothesis inflate_deflate : forall raw, inflate (deflate raw) = Some raw.

(** C10. For a markup text [xml_str] (made of Unicode scalar values, as
    every text read from a file is), [xml_to_viewer_url] returns the fixed
    viewer address, then [#R], then the standard base64 text of the raw
    deflate stream of the UTF-8 bytes of [xml_str]; and reading the link
    back (base64-decoding the fragment after [#R], inflating, decoding the
    UTF-8) gives [xml_str] again. *)
Theorem viewer_link_round_trip (xml_str : str) :
  forallb scalar xml_str = true ->
  exists raw,
    encode_utf8 xml_str = Ok raw /\
    xml_to_viewer_url deflate xml_str =
      Ok (viewer_base ++ "#R" ++ b64encode (deflate raw))%string /\
    read_viewer_url inflate (viewer_base ++ "#R" ++ b64encode (deflate raw))%string
      = Some xml_str.
Proof.
  intros Hs. destruct (encode_utf8_scalar xml_str Hs) as [raw Hraw].
  exists raw. split; [exact Hraw | split].
  - unfold xml_to_viewer_url. now rewrite Hraw.
  - unfold read_viewer_url.
    replace (viewer_base ++ "#R" ++ b64encode (deflate raw))%string
      with ((viewer_base ++ "#R") ++ b64encode (deflate raw))%string
      by reflexivity.
    rewrite after_prefix_append, b64decode_b64encode, inflate_deflate.
    exact (decode_encode_utf8 xml_str raw Hraw).
Qed.

End Zlib.

Lemma viewer_link_round_trip_witness :
  exists raw,
    encode_utf8 sample_markup = Ok raw /\
    xml_to_viewer_url deflate_stored sample_markup =
      Ok (viewer_base ++ "#R" ++ b64encode (deflate_stored raw))%string /\
    read_viewer_url inflate_stored
      (viewer_base ++ "#R" ++ b64encode (deflate_stored raw))%string
      = Some sample_markup.
Proof.
  apply (viewer_link_round_trip deflate_stored inflate_stored).
  - intros raw. reflexivity.
  - vm_compute. reflexivity.
Defined.

End ViewerFacts.

(* ===================================================================== *)
(** * Theorems: image normalization                                        *)
(* ===================================================================== *)

Module ImagingFacts.
Import Py Imaging.

Lemma find_first_some (p : nat -> bool) (n i : nat) :
  find_first p n = Some i ->
  i < n /\ p i = true /\ forall j, j < i -> p j = false.
Proof.
  induction n as [|m IH]; cbn [find_first]; [discriminate|].
  destruct (find_first p m) as [k|] eqn:E.
  - intros [= <-]. destruct (IH eq_refl) as [Hlt [Hp Hmin]]. repeat split; auto.
  - destruct (p m) eqn:Hm; [|discriminate]. intros [= <-].
    repeat split; auto. clear IH. revert E. clear Hm.
    induction m as [|m' IHm]; intros E j Hj; [lia|].
    cbn [find_first] in E. destruct (find_first p m') eqn:E'; [discriminate|].
    destruct (p m') eqn:Hm'; [discriminate|].
    destruct (Nat.eq_dec j m') as [->|]; [exact Hm' | apply IHm; [reflexivity | lia]].
Qed.

Lemma find_first_none (p : nat -> bool) (n : nat) :
  find_first p n = None -> forall j, j < n -> p j = false.
Proof.
  induction n as [|m IH]; cbn [find_first]; intros E j Hj; [lia|].
  destruct (find_first p m) eqn:E'; [discriminate|].
  destruct (p m) eqn:Hm; [discriminate|].
  destruct (Nat.eq_dec j m) as [->|]; [exact Hm | apply IH; [reflexivity | lia]].
Qed.

Lemma find_first_intro (p : nat -> bool) (n i : nat) :
  i < n -> p i = true -> (forall j, j < i -> p j = false) ->
  find_first p n = Some i.
Proof.
  intros Hlt Hp Hmin. destruct (find_first p n) as [k|] eqn:E.
  - destruct (find_first_some p n k E) as [Hk [Hpk Hkmin]].
    f_equal. destruct (Nat.lt_trichotomy k i) as [H|[H|H]]; [|exact H|].
    + rewrite (Hmin k H) in Hpk. discriminate.
    + rewrite (Hkmin i H) in Hp. discriminate.
  - rewrite (find_first_none p n E i Hlt) in Hp. discriminate.
Qed.

Lemma find_last_some (p : nat -> bool) (n i : nat) :
  find_last p n = Some i ->
  i < n /\ p i = true /\ forall j, i < j -> j < n -> p j = false.
Proof.
  induction n as [|m IH]; cbn [find_last]; [discriminate|].
  destruct (p m) eqn:Hm.
  - intros [= <-]. repeat split; auto. intros j H1 H2. lia.
  - intros E. destruct (IH E) as [Hlt [Hp Hmax]]. repeat split; auto.
    intros j H1 H2. destruct (Nat.eq_dec j m) as [->|]; [exact Hm | apply Hmax; lia].
Qed.

Lemma find_last_intro (p : nat -> bool) (n i : nat) :
  i < n -> p i = true -> (forall j, i < j -> j < n -> p j = false) ->
  find_last p n = Some i.
Proof.
  induction n as [|m IH]; intros Hlt Hp Hmax; [lia|]. cbn [find_last].
  destruct (Nat.eq_dec i m) as [->|Hne].
  - now rewrite Hp.
  - rewrite (Hmax m) by lia. apply IH; [lia | exact Hp | intros; apply Hmax; lia].
Qed.

Lemma any_below_true (p : nat -> bool) (n : nat) :
  any_below p n = true <-> exists i, i < n /\ p i = true.
Proof.
  unfold any_below. destruct (find_first p n) as [k|] eqn:E; split.
  - intros _. destruct (find_first_some p n k E) as [H1 [H2 _]]. eauto.
  - reflexivity.
  - discriminate.
  - intros [i [Hi Hp]]. rewrite (find_first_none p n E i Hi) in Hp. discriminate.
Qed.

(** A box that [getbbox] gives has a non-zero pixel on each of its four
    sides, so the same search inside the box gives the whole of it. *)
Lemma getbbox_tight (band : channel) (w h x0 y0 x1 y1 : nat) :
  getbbox band w h = Some (x0, y0, x1, y1) ->
  getbbox (fun x y => band (x + x0) (y + y0)) (x1 - x0) (y1 - y0) =
  Some (0, 0, x1 - x0, y1 - y0).
Proof.
  intros E. unfold getbbox in E. cbv zeta in E.
  pose (nz := fun x y => negb (Z.eqb (band x y) 0)).
  pose (row := fun y => any_below (fun x => nz x y) w).
  pose (col := fun x => any_below (fun y => nz x y) h).
  change (match find_first col w, find_first row h, find_last col w, find_last row h with
          | Some a, Some b, Some c, Some d => Some (a, b, S c, S d)
          | _, _, _, _ => None
          end = Some (x0, y0, x1, y1)) in E.
  destruct (find_first col w) as [a|] eqn:Ea; [|discriminate].
  destruct (find_first row h) as [b|] eqn:Eb; [|discriminate].
  destruct (find_last col w) as [c|] eqn:Ec; [|discriminate].
  destruct (find_last row h) as [d|] eqn:Ed; [|discriminate].
  injection E as -> -> <- <-.
  unfold getbbox. cbv zeta.
  destruct (find_first_some _ _ _ Ea) as [Ha [Hca Hamin]].
  destruct (find_first_some _ _ _ Eb) as [Hb [Hrb Hbmin]].
  destruct (find_last_some _ _ _ Ec) as [Hc [Hcc Hcmax]].
  destruct (find_last_some _ _ _ Ed) as [Hd [Hrd Hdmax]].
  assert (Hin : forall x y, x < w -> y < h -> nz x y = true ->
                            x0 <= x <= c /\ y0 <= y <= d).
  { intros x y Hx Hy Hnz.
    assert (Hcol : col x = true) by (apply any_below_true; eauto).
    assert (Hrow : row y = true) by (apply any_below_true; eauto).
    repeat split.
    - destruct (Nat.le_gt_cases x0 x) as [|H]; [assumption|].
      rewrite (Hamin x H) in Hcol. discriminate.
    - destruct (Nat.le_gt_cases x c) as [|H]; [assumption|].
      rewrite (Hcmax x H Hx) in Hcol. discriminate.
    - destruct (Nat.le_gt_cases y0 y) as [|H]; [assumption|].
      rewrite (Hbmin y H) in Hrow. discriminate.
    - destruct (Nat.le_gt_cases y d) as [|H]; [assumption|].
      rewrite (Hdmax y H Hy) in Hrow. discriminate. }
  apply any_below_true in Hca as [ya [Hya Hnza]].
  apply any_below_true in Hrb as [xb [Hxb Hnzb]].
  apply any_below_true in Hcc as [yc [Hyc Hnzc]].
  apply any_below_true in Hrd as [xd [Hxd Hnzd]].
  destruct (Hin x0 ya Ha Hya Hnza) as [_ Hya'].
  destruct (Hin xb y0 Hxb Hb Hnzb) as [Hxb' _].
  destruct (Hin c yc Hc Hyc Hnzc) as [Hc' Hyc'].
  destruct (Hin xd d Hxd Hd Hnzd) as [Hxd' Hd'].
  pose (w' := S c - x0). pose (h' := S d - y0).
  pose (nz' := fun x y => negb (Z.eqb (band (x + x0) (y + y0)) 0)).
  pose (row' := fun y => any_below (fun x => nz' x y) w').
  pose (col' := fun x => any_below (fun y => nz' x y) h').
  change (match find_first col' w', find_first row' h',
                find_last col' w', find_last row' h' with
          | Some a, Some b, Some c, Some d => Some (a, b, S c, S d)
          | _, _, _, _ => None
          end = Some (0, 0, w', h')).
  assert (Hshift : forall x y, x0 <= x -> y0 <= y -> nz' (x - x0) (y - y0) = nz x y).
  { intros x y Hx Hy. subst nz' nz. cbn beta.
    now replace (x - x0 + x0) with x by lia; replace (y - y0 + y0) with y by lia. }
  assert (Hcol0 : col' 0 = true).
  { apply any_below_true. exists (ya - y0). split; [subst h'; lia|].
    rewrite <- (Nat.sub_diag x0), Hshift by lia. exact Hnza. }
  assert (Hrow0 : row' 0 = true).
  { apply any_below_true. exists (xb - x0). split; [subst w'; lia|].
    rewrite <- (Nat.sub_diag y0), Hshift by lia. exact Hnzb. }
  assert (Hcol1 : col' (c - x0) = true).
  { apply any_below_true. exists (yc - y0). split; [subst h'; lia|].
    rewrite Hshift by lia. exact Hnzc. }
  assert (Hrow1 : row' (d - y0) = true).
  { apply any_below_true. exists (xd - x0). split; [subst w'; lia|].
    rewrite Hshift by lia. exact Hnzd. }
  rewrite (find_first_intro col' w' 0 ltac:(subst w'; lia) Hcol0 ltac:(intros; lia)).
  rewrite (find_first_intro row' h' 0 ltac:(subst h'; lia) Hrow0 ltac:(intros; lia)).
  rewrite (find_last_intro col' w' (c - x0) ltac:(subst w'; lia) Hcol1
             ltac:(subst w'; intros; lia)).
  rewrite (find_last_intro row' h' (d - y0) ltac:(subst h'; lia) Hrow1
             ltac:(subst h'; intros; lia)).
  subst w' h'. do 2 f_equal; [f_equal|]; lia.
Qed.

Section Pillow.

Variable luma : Z -> Z -> Z -> Z.
Variable blend : Z -> Z -> Z -> Z.

Abbreviation normalize := (Imaging.normalize luma blend).
Abbreviation crop_png := (_auto_crop_png_whitespace luma blend).

(** The output is always an RGB image. *)
Lemma normalize_mode (im : Image) : mode (normalize im) = RGB.
Proof.
  unfold Imaging.normalize. destruct im as [[| |] w h px]; cbn [mode is_rgba].
  - destruct (near_white_bbox luma _) as [[[[x0 y0] x1] y1]|]; reflexivity.
  - destruct (getbbox _ _ _) as [[[[x0 y0] x1] y1]|];
      [|destruct (near_white_bbox luma _) as [[[[x0 y0] x1] y1]|]]; reflexivity.
  - cbn [width height].
    destruct (getbbox _ _ _) as [[[[x0 y0] x1] y1]|];
      [|destruct (near_white_bbox luma _) as [[[[x0 y0] x1] y1]|]]; reflexivity.
Qed.

(** On an RGB image the function is the near-white crop, and no more. *)
Lemma normalize_rgb (im : Image) :
  mode im = RGB ->
  normalize im = match near_white_bbox luma im with
                 | Some b => crop im b
                 | None => im
                 end.
Proof.
  destruct im as [m w h px]; cbn [mode]; intros ->.
  unfold Imaging.normalize; cbn [mode is_rgba].
  destruct (near_white_bbox luma _) as [[[[x0 y0] x1] y1]|]; reflexivity.
Qed.

(** After the near-white crop, no near-white border is left to crop. *)
Lemma near_white_bbox_crop (im : Image) (x0 y0 x1 y1 : nat) :
  near_white_bbox luma im = Some (x0, y0, x1, y1) ->
  near_white_bbox luma (crop im (x0, y0, x1, y1)) = Some (0, 0, x1 - x0, y1 - y0).
Proof.
  unfold near_white_bbox. intros H.
  exact (getbbox_tight (invert (threshold (grayscale luma im)))
           (width im) (height im) x0 y0 x1 y1 H).
Qed.

Lemma normalize_rgb_size_stable (im : Image) :
  mode im = RGB ->
  (width (normalize (normalize im)), height (normalize (normalize im))) =
  (width (normalize im), height (normalize im)).
Proof.
  intros Hm. rewrite (normalize_rgb im Hm).
  destruct (near_white_bbox luma im) as [[[[x0 y0] x1] y1]|] eqn:E.
  - rewrite (normalize_rgb (crop im (x0, y0, x1, y1))) by exact Hm.
    rewrite (near_white_bbox_crop im x0 y0 x1 y1 E).
    cbn [crop width height]. now rewrite !Nat.sub_0_r.
  - rewrite (normalize_rgb im Hm), E. reflexivity.
Qed.

Lemma crop_png_size_stable (png : png_bytes) :
  is_rgb_png png -> size (crop_png (crop_png png)) = size (crop_png png).
Proof.
  destruct png as [im|raw]; cbn [is_rgb_png _auto_crop_png_whitespace size].
  - intros Hm. f_equal. exact (normalize_rgb_size_stable im Hm).
  - reflexivity.
Qed.

Lemma crop_png_is_rgb (png : png_bytes) : is_rgb_png (crop_png png).
Proof.
  destruct png as [im|raw]; cbn [is_rgb_png _auto_crop_png_whitespace];
    [apply normalize_mode | exact I].
Qed.

End Pillow.

Example framed_dot_once :
  size (_auto_crop_png_whitespace pillow_luma pillow_blend (Png framed_dot)) = Some (1, 1).
Proof. vm_compute. reflexivity. Qed.

Example framed_dot_twice :
  size (_auto_crop_png_whitespace pillow_luma pillow_blend
          (_auto_crop_png_whitespace pillow_luma pillow_blend (Png framed_dot)))
  = Some (1, 1).
Proof. vm_compute. reflexivity. Qed.

(** C8, as the code has it. Whatever the arithmetic of the luma and of the
    blend: on bytes that hold an RGB image (or no image), a second
    application of [_auto_crop_png_whitespace] gives the pixel dimensions of
    the first; and since the output of the function is an RGB image, for
    all bytes a third application gives the dimensions of the second. *)
Theorem crop_idempotent_on_rgb_input (luma blend : Z -> Z -> Z -> Z) :
  let f := _auto_crop_png_whitespace luma blend in
  (forall png, is_rgb_png png -> size (f (f png)) = size (f png)) /\
  (forall png, is_rgb_png (f png)) /\
  (forall png, size (f (f (f png))) = size (f (f png))).
Proof.
  intros f. split; [|split].
  - exact (crop_png_size_stable luma blend).
  - exact (crop_png_is_rgb luma blend).
  - intros png. apply (crop_png_size_stable luma blend), crop_png_is_rgb.
Qed.

(** C8 as stated fails. A picture with an alpha band, three pixels wide:
    opaque white, opaque black, transparent. The first application crops
    the transparent column (the box of the alpha band) and flattens: two
    pixels, white and black, now RGB. The second application finds no alpha
    band, crops the near-white column, and leaves one pixel. *)
Lemma crop_again_shrinks_again :
  let f := _auto_crop_png_whitespace pillow_luma pillow_blend in
  size (f (Png white_black_clear)) = Some (2, 1) /\
  size (f (f (Png white_black_clear))) = Some (1, 1) /\
  size (f (f (Png white_black_clear))) <> size (f (Png white_black_clear)).
Proof. vm_compute. repeat split. discriminate. Qed.

End ImagingFacts.

(** Case analysis on everything the outside world can answer: split on the
    innermost scrutinee of a [match] of the goal, until none is left. *)
Ltac split_scrutinee x :=
  lazymatch x with
  | context [match _ with _ => _ end] => fail
  | _ => destruct x eqn:?
  end.

Ltac world_cases :=
  repeat match goal with
         | |- context [match ?x with _ => _ end] => split_scrutinee x
         end.

(* ===================================================================== *)
(** * More on the rendering fallback chain                                 *)
(* ===================================================================== *)

Module RendererMore.
Import Py Renderer RendererLog.

Ltac run_chain :=
  cbv beta iota zeta delta
    [mermaid_to_png_best_effort mermaid_to_png_via_kroki mermaid_to_png_via_chrome
     or_else try_raster try_vector _svg_bytes_to_png external
     bind ret try_except truthy_bytes truthy_list truthy_str negb orb andb fst snd].

Lemma endpoints_of_app (l1 l2 : list call) :
  endpoints_of (l1 ++ l2) = endpoints_of l1 ++ endpoints_of l2.
Proof.
  induction l1 as [|[e c|svg|c] l1 IH]; cbn [app endpoints_of]; [reflexivity| |exact IH|exact IH].
  now rewrite IH.
Qed.

Lemma browser_runs_app (l1 l2 : list call) :
  browser_runs (l1 ++ l2) = browser_runs l1 + browser_runs l2.
Proof.
  induction l1 as [|[e c|svg|c] l1 IH]; cbn [app browser_runs]; [reflexivity|exact IH|exact IH|].
  now rewrite IH.
Qed.

(** X1. Whatever the outside world does (responses, timeouts, missing
    packages), [mermaid_to_png_best_effort] returns a value and raises
    nothing, and it only adds to the log of external calls. *)
Theorem best_effort_always_returns (env : Env) (code : string) (log : list call) :
  exists v added, mermaid_to_png_best_effort env code log = (Ok v, log ++ added).
Proof.
  run_chain. world_cases.
  all: rewrite <- ?app_assoc; do 2 eexists; try reflexivity.
  all: rewrite <- (app_nil_r log) at 1; reflexivity.
Qed.

(** X2. An image that [mermaid_to_png_via_kroki] returns is never empty:
    an empty response body or an empty rasterization is passed over. *)
Theorem via_kroki_image_not_empty
    (env : Env) (code : string) (log : list call) (png : bytes) :
  fst (mermaid_to_png_via_kroki env code log) = Ok (Some png) -> png <> [].
Proof.
  run_chain. world_cases; cbn [fst]; intros E; inversion E; subst; discriminate.
Qed.

Lemma via_kroki_image_not_empty_witness : ["P"; "N"; "G"]%byte <> [].
Proof.
  apply (via_kroki_image_not_empty env_kroki_up "flowchart TD" []). reflexivity.
Defined.

(** X3. When the four HTTP strategies fail for a diagram text and the
    headless browser is there and takes a screenshot, the renderer goes
    through the whole chain and returns that screenshot. *)
Theorem browser_is_last_resort
    (env : Env) (code : string) (log : list call) (png : bytes) :
  succeeds env RemoteRaster code = false ->
  succeeds env RemoteVector code = false ->
  succeeds env PublicRaster code = false ->
  succeeds env PublicVector code = false ->
  HAS_SELENIUM env = true ->
  code <> EmptyString ->
  screenshot env code = Ok png ->
  fst (mermaid_to_png_best_effort env code log) = Ok (Some png).
Proof.
  intros H1 H2 H3 H4 Hsel Hcode Hshot.
  unfold mermaid_to_png_best_effort, bind.
  destruct (RendererFacts.via_kroki_fails env code log H1 H2 H3 H4) as [l ->].
  unfold mermaid_to_png_via_chrome, try_except, bind, external, ret.
  rewrite Hsel, Hshot. destruct code; [congruence | reflexivity].
Qed.

Lemma browser_is_last_resort_witness :
  fst (mermaid_to_png_best_effort env_browser_only "flowchart TD" []) =
  Ok (Some ["S"; "H"; "O"; "T"]%byte).
Proof.
  apply (browser_is_last_resort env_browser_only "flowchart TD" []);
    solve [reflexivity | discriminate].
Defined.

(** X4. The endpoints are asked in one fixed order, each once at most: the
    requests of a rendering are an initial part of Kroki PNG, Kroki SVG,
    mermaid.ink PNG, mermaid.ink SVG. The browser is started once at most,
    and when the HTTP client is there only after all four were asked. *)
Theorem chain_is_sequential (env : Env) (code : string) (log : list call) :
  exists added k,
    snd (mermaid_to_png_best_effort env code log) = log ++ added /\
    endpoints_of added = firstn k chain_order /\
    browser_runs added <= 1 /\
    (browser_runs added = 1 ->
     HAS_REQUESTS env = false \/ endpoints_of added = chain_order).
Proof.
  run_chain. world_cases; cbn [snd].
  all: rewrite <- ?app_assoc; eexists.
  all: let finish k :=
         (exists k; split;
          [first [reflexivity | rewrite <- (app_nil_r log) at 1; reflexivity]|];
          split; [reflexivity|]; cbn; split; [lia|]; intros;
          solve [discriminate | left; reflexivity | right; reflexivity]) in
       first [finish 0 | finish 1 | finish 2 | finish 3 | finish 4].
Qed.

End RendererMore.

(* ===================================================================== *)
(** * More on refreshing the preview                                       *)
(* ===================================================================== *)

Module EditorMore.
Import Py Text Editor EditorLog.

(** Unfold one refresh on a world given by its fields. *)
Ltac run_refresh :=
  cbv beta iota zeta delta
    [_auto_refresh_drawio_preview refresh_body refresh_handler export_attempts
     max_retries get_fs set_fs st emit current_url export_xml time_time time_sleep
     reset_session is_drawio bind ret try_except raise modify get
     truthy_str negb orb andb fst snd tl
     fs clock url_reads exports files log driver mode viewer_url last_refresh_ts];
  change (Nat.ltb 0 (2 - 1)) with true;
  change (Nat.ltb 1 (2 - 1)) with false;
  cbv beta iota zeta.

Section Refresh.

Variable link : string -> string.

(** X5. [_auto_refresh_drawio_preview] never raises: whatever the browser
    session does (lost window, failed or timed-out export, missing or short
    file), it returns [True] or [False], and only adds to the log. *)
Theorem refresh_always_returns (w : World) :
  exists b w' added,
    _auto_refresh_drawio_preview link w = (Ok b, w') /\ log w' = log w ++ added.
Proof.
  destruct w as [[drv md vurl ts] clk urls exps fls lg].
  run_refresh. world_cases.
  all: do 3 eexists; split; [reflexivity|]; cbn [log]; rewrite <- ?app_assoc; reflexivity.
Qed.

(** X6. A refresh that returns [False] leaves the viewer link and the time
    of the last refresh as they were; a refresh that returns [True] has
    read an exported file of 50 characters at least, has set the link to
    the viewer link of its text and the time of the last refresh to the
    clock, and has kept the session. Nothing else can happen. *)
Theorem refresh_updates_all_or_nothing (w : World) :
  let r := _auto_refresh_drawio_preview link w in
  let w' := snd r in
  match fst r with
  | Ok false =>
      viewer_url (fs w') = viewer_url (fs w) /\
      last_refresh_ts (fs w') = last_refresh_ts (fs w)
  | Ok true =>
      last_refresh_ts (fs w') = Some (clock w') /\
      driver (fs w') = driver (fs w) /\
      mode (fs w') = mode (fs w) /\
      exists path xml,
        files w path = Some xml /\
        50 <= String.length xml /\
        viewer_url (fs w') = Some (link xml)
  | Raise _ => False
  end.
Proof.
  destruct w as [[drv md vurl ts] clk urls exps fls lg].
  run_refresh. world_cases.
  all: cbn [fst snd fs clock files viewer_url last_refresh_ts driver mode].
  all: try (split; reflexivity).
  all: repeat split.
  all: match goal with
       | H : Nat.ltb (String.length _) 50 = false |- _ => apply Nat.ltb_ge in H
       end.
  all: do 2 eexists; repeat split; eassumption.
Qed.

(** X7. A refresh calls the export twice at most and pauses once at most;
    and it calls the export only when the editor is open, the session has
    answered the liveness probe, and the browser is on a page of the
    editor. *)
Theorem refresh_exports_only_from_live_session (w : World) :
  exists added,
    log (snd (_auto_refresh_drawio_preview link w)) = log w ++ added /\
    export_calls added <= 2 /\
    sleeps added <= 1 /\
    (1 <= export_calls added ->
     active w = true /\
     exists u1 u2 rest,
       url_reads w = Ok u1 :: Ok u2 :: rest /\ on_editor_domain u2 = true).
Proof.
  destruct w as [[drv md vurl ts] clk urls exps fls lg].
  unfold active, on_editor_domain.
  run_refresh. world_cases.
  all: cbn [snd log]; rewrite <- ?app_assoc; eexists; split; [reflexivity|].
  all: cbn; split; [lia|]; split; [lia|]; intros Hexp; try lia.
  all: split; [reflexivity|]; do 3 eexists; split; [reflexivity|].
  all: match goal with
       | H1 : contains "diagrams.net" ?u = _, H2 : contains "draw.io" ?u = _ |- _ =>
           rewrite H1, H2 in *
       | H1 : contains "diagrams.net" ?u = _ |- _ => rewrite H1 in *
       end; try reflexivity; try discriminate.
Qed.

(** X8. When the editor is open and the liveness probe fails, the refresh
    returns [False], forgets the session (no driver, no mode), reports the
    loss, and attempts no export; the viewer link is kept. *)
Theorem refresh_detects_lost_session (w : World) :
  active w = true ->
  probe_fails w = true ->
  let r := _auto_refresh_drawio_preview link w in
  fst r = Ok false /\
  driver (fs (snd r)) = None /\
  mode (fs (snd r)) = None /\
  viewer_url (fs (snd r)) = viewer_url (fs w) /\
  log (snd r) = log w ++ [ReadCurrentUrl; Shown SessionLost].
Proof.
  destruct w as [[drv md vurl ts] clk urls exps fls lg].
  unfold active, probe_fails; cbn [fs mode driver url_reads].
  intros Hact Hprobe.
  run_refresh.
  destruct md as [m|]; [|discriminate Hact].
  cbn [is_drawio] in Hact. destruct (String.eqb m "drawio"); [|discriminate Hact].
  destruct drv; [|discriminate Hact].
  cbv beta iota zeta.
  destruct urls as [|[u|e] rest]; [|discriminate Hprobe|].
  all: cbn [fst snd fs log driver mode viewer_url]; rewrite <- ?app_assoc;
    repeat split.
Qed.

End Refresh.

Lemma refresh_detects_lost_session_witness :
  let r := _auto_refresh_drawio_preview link_of world_window_closed in
  fst r = Ok false /\
  driver (fs (snd r)) = None /\
  mode (fs (snd r)) = None /\
  viewer_url (fs (snd r)) = viewer_url (fs world_window_closed) /\
  log (snd r) = log world_window_closed ++ [ReadCurrentUrl; Shown SessionLost].
Proof.
  apply (refresh_detects_lost_session link_of world_window_closed); reflexivity.
Defined.

End EditorMore.

(* ===================================================================== *)
(** * More on document composition                                         *)
(* ===================================================================== *)

Module DocxMore.
Import Py Docx Assembly.

Lemma present_some (l : list BytesIO) : present (map Some l) = l.
Proof. induction l as [|b l IH]; cbn [map present]; [reflexivity | now rewrite IH]. Qed.

(** X9. Composition can be done in stages: merging the result of a merge
    with further fragments gives the document that merging all the
    fragments at once gives. *)
Theorem merge_in_stages
    (b0 merged : BytesIO) (rest1 rest2 : list (option BytesIO)) :
  merge_docx_files_with_page_breaks (Some b0 :: rest1) = Ok merged ->
  merge_docx_files_with_page_breaks (Some merged :: rest2) =
  merge_docx_files_with_page_breaks (Some b0 :: rest1 ++ rest2).
Proof.
  unfold merge_docx_files_with_page_breaks. intros E.
  injection E as <-. rewrite fold_left_app. unfold save at 1.
  cbn [open_document]. now destruct (fold_left merge_step rest1 _).
Qed.

Lemma merge_in_stages_witness :
  merge_docx_files_with_page_breaks
    [Some (Saved {| body := [Paragraph [[Text "Cover"]]; page_break_paragraph;
                             Paragraph [[Text "Letter"]]] |});
     None; Some (doc_of "Summary")] =
  merge_docx_files_with_page_breaks
    (Some (doc_of "Cover") :: [Some (doc_of "Letter")] ++ [None; Some (doc_of "Summary")]).
Proof.
  apply (merge_in_stages (doc_of "Cover")). reflexivity.
Defined.

Section Step5.

Variable cover_page company_profile : BytesIO.
Variable indent : BytesIO -> BytesIO.

(** X10. In step 5 the button that merges is enabled exactly when no
    required section is missing. The merge of the gathered parts has the
    cover page as its base whatever the session holds, so it returns a
    document and never fails for want of a base; and when the button is
    enabled, six parts are merged in the fixed order cover page, cover
    letter, response to RFQ, executive summary (indented), company profile,
    concept description. *)
Theorem final_merge_has_its_base (s : Session) :
  (can_merge indent s = true <-> missing indent s = []) /\
  (exists merged,
      merge_docx_files_with_page_breaks
        (map Some (fst (gather_parts cover_page company_profile indent s)))
      = Ok (Saved merged) /\
      body merged =
        body (open_document cover_page) ++
        flat_map (fun b => page_break_paragraph :: body (open_document b))
                 (tl (fst (gather_parts cover_page company_profile indent s)))) /\
  (can_merge indent s = true ->
   exists cov rfq es flow,
     selected_cover_buffer s = Some cov /\ manual_rfq_buffer s = Some rfq /\
     selected_summary_buffer s = Some es /\ flowchart_docx_buffer s = Some flow /\
     gather_parts cover_page company_profile indent s =
     ([cover_page; cov; rfq; indent es; company_profile; flow],
      ["Cover Page"; "Cover Letter"; "Response to RFQ"; "Executive Summary";
       "Company Profile"; "Concept Description"]%string)) /\
  (forall clicked,
      generate_final_proposal cover_page company_profile indent s clicked = None \/
      exists merged,
        generate_final_proposal cover_page company_profile indent s clicked
        = Some (Ok merged)).
Proof.
  assert (Hbtn : forall clicked,
      generate_final_proposal cover_page company_profile indent s clicked = None \/
      exists merged,
        generate_final_proposal cover_page company_profile indent s clicked
        = Some (Ok merged)).
  { intros clicked. unfold generate_final_proposal.
    destruct (clicked && negb (negb (can_merge indent s)))%bool; [right | now left].
    unfold gather_parts, append_if.
    destruct (selected_cover_buffer s), (manual_rfq_buffer s),
      (indented_summary indent s), (flowchart_docx_buffer s);
      cbn [fst snd app map]; eexists; reflexivity. }
  refine ((fun H => conj (proj1 H) (conj (proj1 (proj2 H))
            (conj (proj2 (proj2 H)) Hbtn))) _).
  clear Hbtn.
  destruct s as [[cov|] [rfq|] [es|] [flow|]];
    unfold can_merge, missing, gather_parts, indented_summary, append_if;
    cbn [selected_cover_buffer manual_rfq_buffer selected_summary_buffer
         flowchart_docx_buffer option_map there forallb andb fst snd app].
  all: split; [split; (discriminate || reflexivity)|].
  all: split;
    [eexists; split; [reflexivity|];
     cbn [map tl]; rewrite DocxFacts.merge_loop_body; cbn [doc];
     now rewrite (present_some (_ :: _)) || reflexivity
    | try discriminate].
  intros _. do 4 eexists. repeat split.
Qed.

End Step5.

End DocxMore.

(* ===================================================================== *)
(** * More on diagram synthesis                                            *)
(* ===================================================================== *)

Module SynthMore.
Import Py Text Synth SynthLog SynthFacts.

Lemma lstrip_suffix (s : string) : exists a, s = (a ++ lstrip s)%string.
Proof.
  induction s as [|c t [a IH]]; [now exists EmptyString|].
  cbn [lstrip]. destruct (is_space c).
  - exists (String c a). cbn [append]. now rewrite <- IH.
  - now exists EmptyString.
Qed.

Lemma lstrip_length (s : string) : String.length (lstrip s) <= String.length s.
Proof.
  induction s as [|c t IH]; cbn [lstrip]; [lia|].
  destruct (is_space c); cbn [String.length]; lia.
Qed.

Lemma lstrip_fixed_head (c : ascii) (t : string) :
  lstrip (String c t) = String c t -> is_space c = false.
Proof.
  cbn [lstrip]. destruct (is_space c); [|reflexivity].
  intros E. pose proof (lstrip_length t) as H. rewrite E in H.
  cbn [String.length] in H. lia.
Qed.

Lemma rstrip_app_inv (a b : string) :
  rstrip (a ++ b) = (a ++ b)%string -> rstrip b = b.
Proof.
  induction a as [|c a IH]; cbn [append]; [trivial|].
  intros H. apply IH. exact (rstrip_tail _ _ H).
Qed.

Lemma rstrip_idem (s : string) : rstrip (rstrip s) = rstrip s.
Proof.
  induction s as [|c t IH]; [reflexivity|]. cbn [rstrip].
  destruct (rstrip t) as [|d t'] eqn:E.
  - destruct (is_space c) eqn:Ec; [reflexivity|]. cbn [rstrip]. now rewrite Ec.
  - cbn [rstrip]. cbn [rstrip] in IH. now rewrite IH.
Qed.

Lemma lstrip_idem (s : string) : lstrip (lstrip s) = lstrip s.
Proof.
  induction s as [|c t IH]; [reflexivity|]. cbn [lstrip].
  destruct (is_space c) eqn:Ec; [exact IH|]. cbn [lstrip]. now rewrite Ec.
Qed.

Lemma lstrip_rstrip (s : string) : lstrip s = s -> lstrip (rstrip s) = rstrip s.
Proof.
  destruct s as [|c t]; [reflexivity|]. intros H.
  pose proof (lstrip_fixed_head c t H) as Ec.
  rewrite (rstrip_ink c t Ec). cbn [lstrip]. now rewrite Ec.
Qed.

Lemma strip_trimmed (s : string) : trimmed (strip s).
Proof.
  unfold trimmed, strip. split.
  - apply lstrip_rstrip, lstrip_idem.
  - apply rstrip_idem.
Qed.

Lemma after_prefix_split (p s r : string) :
  after_prefix p s = Some r -> s = (p ++ r)%string.
Proof.
  revert s; induction p as [|a p IH]; intros s; cbn [after_prefix append].
  - now intros [= ->].
  - destruct s as [|b s]; [discriminate|].
    destruct (Ascii.eqb_spec a b) as [->|]; [|discriminate].
    intros H. now rewrite (IH s H).
Qed.

Lemma trimmed_lstrip_suffix (a r : string) :
  rstrip (a ++ r) = (a ++ r)%string -> trimmed (lstrip r).
Proof.
  intros H. split; [apply lstrip_idem|].
  destruct (lstrip_suffix r) as [w Hw].
  apply rstrip_app_inv in H. rewrite Hw in H. exact (rstrip_app_inv _ _ H).
Qed.

Lemma sub_opening_fence_trimmed (out : string) :
  trimmed out -> trimmed (sub_opening_fence out).
Proof.
  intros [Hl Hr]. unfold sub_opening_fence.
  destruct (after_prefix fence out) as [rest|] eqn:E; [|now split].
  apply after_prefix_split in E.
  destruct (after_prefix "mermaid" rest) as [rest'|] eqn:E'.
  - apply after_prefix_split in E'. subst rest. rewrite E in Hr.
    rewrite <- append_assoc in Hr. exact (trimmed_lstrip_suffix _ _ Hr).
  - rewrite E in Hr. exact (trimmed_lstrip_suffix _ _ Hr).
Qed.

(** The pattern does not match before a final newline in a text without
    trailing whitespace. *)
Lemma no_newline_match (s : string) :
  rstrip s = s -> closing_fence_here s <> Some nl.
Proof.
  intros Hr. unfold closing_fence_here.
  destruct (String.eqb_spec (lstrip s) fence) as [|_]; [discriminate|].
  destruct (String.eqb_spec (lstrip s) (fence ++ nl)) as [E|_]; [|discriminate].
  exfalso. destruct (lstrip_suffix s) as [a Ha]. rewrite E in Ha.
  rewrite Ha in Hr. apply rstrip_app_inv in Hr. discriminate Hr.
Qed.

Lemma sub_closing_fence_rstrip (s : string) :
  rstrip s = s -> rstrip (sub_closing_fence s) = sub_closing_fence s.
Proof.
  induction s as [|c t IH]; intros Hr; [reflexivity|].
  pose proof (no_newline_match _ Hr) as Hnl.
  pose proof (rstrip_tail _ _ Hr) as Ht.
  cbn [sub_closing_fence].
  destruct (closing_fence_here (String c t)) as [rest|] eqn:E.
  - unfold closing_fence_here in E.
    destruct (String.eqb (lstrip (String c t)) fence); [now injection E as <-|].
    destruct (String.eqb (lstrip (String c t)) (fence ++ nl)); [|discriminate].
    injection E as <-. now contradiction Hnl.
  - specialize (IH Ht). cbn [rstrip]. rewrite IH.
    destruct (sub_closing_fence t) as [|d r] eqn:Es; [|reflexivity].
    destruct (is_space c) eqn:Ec; [|reflexivity]. exfalso.
    (* the match would have started one character earlier *)
    destruct t as [|d t'].
    + cbn [rstrip] in Hr. rewrite Ec in Hr. discriminate.
    + cbn [sub_closing_fence] in Es.
      destruct (closing_fence_here (String d t')) as [rest|] eqn:E'; [|discriminate].
      subst rest. unfold closing_fence_here in E, E'.
      change (lstrip (String c (String d t')))
        with (if is_space c then lstrip (String d t') else String c (String d t')) in E.
      rewrite Ec in E.
      destruct (String.eqb (lstrip (String d t')) fence); [discriminate E|].
      destruct (String.eqb (lstrip (String d t')) (fence ++ nl)); discriminate.
Qed.

Lemma sub_closing_fence_lstrip (s : string) :
  lstrip s = s -> rstrip s = s -> lstrip (sub_closing_fence s) = sub_closing_fence s.
Proof.
  destruct s as [|c t]; [reflexivity|]. intros Hl Hr.
  pose proof (no_newline_match _ Hr) as Hnl.
  cbn [sub_closing_fence].
  destruct (closing_fence_here (String c t)) as [rest|] eqn:E.
  - unfold closing_fence_here in E.
    destruct (String.eqb (lstrip (String c t)) fence); [now injection E as <-|].
    destruct (String.eqb (lstrip (String c t)) (fence ++ nl)); [|discriminate].
    injection E as <-. now contradiction Hnl.
  - cbn [lstrip]. now rewrite (lstrip_fixed_head c t Hl).
Qed.

(** X11. What [ask_llm_mermaid] returns has no whitespace at either end,
    whatever the service answered: stripping it again changes nothing. *)
Theorem clean_response_is_trimmed (content : option string) :
  strip (clean_response content) = clean_response content.
Proof.
  assert (H : trimmed (clean_response content)).
  { unfold clean_response.
    pose proof (sub_opening_fence_trimmed _ (strip_trimmed (or_str content ""))) as [Hl Hr].
    set (out := sub_opening_fence (strip (or_str content ""))) in *.
    assert (Ht : trimmed (sub_closing_fence out))
      by (split; [now apply sub_closing_fence_lstrip | now apply sub_closing_fence_rstrip]).
    destruct (negb _); [|exact Ht].
    destruct (search_flowchart_td _); [apply strip_trimmed | exact Ht]. }
  destruct H as [Hl Hr]. unfold strip. now rewrite Hl, Hr.
Qed.

(** No closing fence is found in a text that neither ends with a fence nor
    with whitespace. *)
Lemma sub_closing_fence_none (s : string) :
  rstrip s = s -> (forall p, s <> (p ++ fence)%string) -> sub_closing_fence s = s.
Proof.
  induction s as [|c t IH]; intros Hr Hend; [reflexivity|].
  pose proof (no_newline_match _ Hr) as Hnl.
  cbn [sub_closing_fence].
  destruct (closing_fence_here (String c t)) as [rest|] eqn:E.
  - exfalso. unfold closing_fence_here in E.
    destruct (String.eqb_spec (lstrip (String c t)) fence) as [Ef|_].
    + destruct (lstrip_suffix (String c t)) as [a Ha]. rewrite Ef in Ha.
      exact (Hend a Ha).
    + destruct (String.eqb (lstrip (String c t)) (fence ++ nl)); [|discriminate].
      injection E as <-. now apply Hnl.
  - f_equal. apply IH; [exact (rstrip_tail _ _ Hr)|].
    intros p Hp. apply (Hend (String c p)). cbn [append]. now rewrite Hp.
Qed.

Lemma endswith_append (p x : string) : endswith (p ++ x) x = true.
Proof.
  induction p as [|c p IH]; cbn [append].
  - destruct x; cbn [endswith]; now rewrite String.eqb_refl.
  - cbn [endswith]. rewrite IH. apply orb_true_r.
Qed.

(** X12. An answer that is already a bare diagram comes back as it is: a
    text without whitespace at either end that begins with the keyword and
    does not end with a fence is not changed by the cleaning. *)
Theorem clean_response_keeps_bare_diagram (body : string) :
  strip body = body ->
  startswith (lower body) "flowchart" = true ->
  endswith body fence = false ->
  clean_response (Some body) = body.
Proof.
  intros Hstrip Hkw Hfence.
  assert (Hend : forall p, body <> (p ++ fence)%string).
  { intros p E. rewrite E, endswith_append in Hfence. discriminate. }
  pose proof (starts_flowchart_lstrip body Hkw) as Hl.
  assert (Hr : rstrip body = body) by (unfold strip in Hstrip; now rewrite Hl in Hstrip).
  unfold clean_response.
  rewrite ProseGenFacts.or_str_some.
  rewrite Hstrip.
  assert (Ho : sub_opening_fence body = body).
  { unfold sub_opening_fence. destruct (after_prefix fence body) as [rest|] eqn:E; [|reflexivity].
    apply after_prefix_split in E. subst body. discriminate Hkw. }
  rewrite Ho, (sub_closing_fence_none body Hr Hend), Hkw. reflexivity.
Qed.

Lemma clean_response_keeps_bare_diagram_witness :
  clean_response (Some ("flowchart TD" ++ nl ++ "A[Infeed] --> B[Sorter]")%string)
  = ("flowchart TD" ++ nl ++ "A[Infeed] --> B[Sorter]")%string.
Proof.
  apply clean_response_keeps_bare_diagram; reflexivity.
Defined.

(** X13. Without a text to send (no PDF, an extraction that raises or gives
    nothing) or without a client for the service, the handler sends no
    request: the requests made, the answers still to come and the diagram
    of the session stay as they were, and one error notice is shown. *)
Theorem no_request_without_text_or_client
    (w : World) (pdf : option (result string)) :
  has_text pdf = false \/ groq_key_ok w = false ->
  let w' := snd (generate_flowchart pdf w) in
  requests w' = requests w /\
  pending w' = pending w /\
  mermaid_code w' = mermaid_code w /\
  exists msg, shown w' = shown w ++ [st_error msg].
Proof.
  intros H.
  assert (Hcases : has_text pdf = false \/ (has_text pdf = true /\ groq_key_ok w = false)).
  { destruct (has_text pdf); [right | left]; [|reflexivity].
    destruct H as [H|H]; [discriminate | now split]. }
  clear H. destruct Hcases as [Hno | [Hyes Hkey]].
  - destruct pdf as [[[|c t]|e]|]; try discriminate Hno;
      cbn; repeat split; eexists; reflexivity.
  - destruct pdf as [[[|c t]|e]|]; try discriminate Hyes.
    cbv beta iota zeta delta [generate_flowchart bind try_except load_groq
      ask_llm_mermaid chat_completions_create truthy_str raise ret].
    rewrite Hkey. cbn. repeat split. eexists; reflexivity.
Qed.

Lemma no_request_without_text_or_client_witness :
  let w' := snd (generate_flowchart (Some (Ok "Parcels are sorted.")) world_without_key) in
  requests w' = requests world_without_key /\
  pending w' = pending world_without_key /\
  mermaid_code w' = mermaid_code world_without_key /\
  exists msg, shown w' = shown world_without_key ++ [st_error msg].
Proof.
  apply (no_request_without_text_or_client world_without_key
           (Some (Ok "Parcels are sorted."))).
  right. reflexivity.
Defined.

End SynthMore.

(* ===================================================================== *)
(** * More on the links                                                    *)
(* ===================================================================== *)

Module LinksMore.
Import Py Text Viewer Links ViewerFacts.

Local Open Scope N_scope.

Lemma b64_char_ok (x : N) : x < 64 -> is_b64 (b64_char x) = true.
Proof.
  intros H.
  assert (Hall : forallb (fun k => is_b64 (b64_char k)) (map N.of_nat (seq 0 64)) = true)
    by (vm_compute; reflexivity).
  rewrite forallb_forall in Hall. apply Hall.
  rewrite <- (N2Nat.id x). apply in_map. apply in_seq. lia.
Qed.

(** The text of [b64encode] is made of the alphabet and the padding. *)
Lemma b64encode_chars (bs : bytes) : all_chars is_b64 (b64encode bs) = true.
Proof.
  assert (H : forall k bs, (length bs <= k)%nat -> all_chars is_b64 (b64encode bs) = true).
  { clear bs. induction k as [|k IH]; intros bs Hlen.
    - destruct bs; [reflexivity | simpl in Hlen; lia].
    - destruct bs as [|a [|b [|c rest]]]; [reflexivity | | |].
      + pose proof (to_N_lt a).
        cbn [b64encode all_chars]. rewrite !b64_char_ok by lia_div. reflexivity.
      + pose proof (to_N_lt a). pose proof (to_N_lt b).
        cbn [b64encode all_chars]. rewrite !b64_char_ok by lia_div. reflexivity.
      + pose proof (to_N_lt a). pose proof (to_N_lt b). pose proof (to_N_lt c).
        cbn [b64encode all_chars]. rewrite !b64_char_ok by lia_div.
        rewrite IH by (simpl in Hlen; lia). reflexivity. }
  apply (H (length bs)). lia.
Qed.

Lemma b64encode_length (bs : bytes) :
  String.length (b64encode bs) = (4 * ((length bs + 2) / 3))%nat.
Proof.
  assert (H : forall k bs, (length bs <= k)%nat ->
                String.length (b64encode bs) = (4 * ((length bs + 2) / 3))%nat).
  { clear bs. induction k as [|k IH]; intros bs Hlen.
    - destruct bs; [reflexivity | simpl in Hlen; lia].
    - destruct bs as [|a [|b [|c rest]]]; [reflexivity | reflexivity | reflexivity |].
      cbn [b64encode String.length length].
      rewrite IH by (simpl in Hlen; lia).
      replace (S (S (S (length rest))) + 2)%nat with (1 * 3 + (length rest + 2))%nat by lia.
      rewrite Nat.div_add_l by lia. lia. }
  apply (H (length bs)). lia.
Qed.

Lemma standard_urlsafe (c : ascii) :
  is_b64 c = true -> standard_char (urlsafe_char c) = c.
Proof. destruct c as [[] [] [] [] [] [] [] []]; vm_compute; congruence. Qed.

Lemma urlsafe_char_safe (c : ascii) :
  Ascii.eqb (urlsafe_char c) "/" = false /\ Ascii.eqb (urlsafe_char c) "+" = false.
Proof. destruct c as [[] [] [] [] [] [] [] []]; vm_compute; split; reflexivity. Qed.

Lemma translate_back (s : string) :
  all_chars is_b64 s = true ->
  translate standard_char (translate urlsafe_char s) = s.
Proof.
  induction s as [|c t IH]; cbn [all_chars translate]; [reflexivity|].
  intros H. apply andb_true_iff in H as [Hc Ht].
  now rewrite (standard_urlsafe c Hc), (IH Ht).
Qed.

Lemma no_char_after_translate (ch : ascii) (s : string) :
  (forall c, Ascii.eqb (urlsafe_char c) ch = false) ->
  contains (String ch EmptyString) (translate urlsafe_char s) = false.
Proof.
  intros H. induction s as [|c t IH]; [reflexivity|].
  cbn [translate contains startswith]. rewrite IH.
  rewrite Ascii.eqb_sym, (H c). reflexivity.
Qed.

Section Zlib.

Variable compress : bytes -> bytes.

(** X14. The text that [_deflate_b64_urlsafe] puts into the address of the
    public rendering service holds no [/] and no [+], so it stays one path
    segment; and decoding it as URL-safe base64 gives back the compressed
    bytes of the UTF-8 text. A text that UTF-8 cannot encode raises. *)
Theorem deflate_b64_is_urlsafe (mermaid_code : str) :
  match _deflate_b64_urlsafe compress mermaid_code with
  | Ok code_b64 =>
      contains "/" code_b64 = false /\
      contains "+" code_b64 = false /\
      exists raw,
        encode_utf8 mermaid_code = Ok raw /\
        urlsafe_b64decode code_b64 = Some (compress raw)
  | Raise e => forallb scalar mermaid_code = false
  end.
Proof.
  unfold _deflate_b64_urlsafe.
  destruct (encode_utf8 mermaid_code) as [raw|e] eqn:E.
  - split; [|split].
    + apply no_char_after_translate. intros c. apply urlsafe_char_safe.
    + apply no_char_after_translate. intros c. apply urlsafe_char_safe.
    + exists raw. split; [reflexivity|].
      unfold urlsafe_b64decode, urlsafe_b64encode.
      rewrite translate_back by apply b64encode_chars.
      apply b64decode_b64encode.
  - destruct (forallb scalar mermaid_code) eqn:Hs; [|reflexivity].
    destruct (encode_utf8_scalar mermaid_code Hs) as [raw Hraw]. congruence.
Qed.

End Zlib.

Section ViewerLink.

Variable deflate : bytes -> bytes.

(** X15. [xml_to_viewer_url] fails exactly on a text that holds something
    other than Unicode scalar values (a lone surrogate), and then with the
    [ValueError] of the encoder; when it returns, the part of the link
    after [#R] is made of characters of the base64 alphabet and padding
    only, and its length is a multiple of four. *)
Theorem viewer_link_shape (xml_str : str) :
  match xml_to_viewer_url deflate xml_str with
  | Ok url =>
      forallb scalar xml_str = true /\
      exists fragment,
        url = (viewer_base ++ "#R" ++ fragment)%string /\
        all_chars is_b64 fragment = true /\
        (String.length fragment mod 4 = 0)%nat
  | Raise e =>
      forallb scalar xml_str = false /\ exists msg, e = ValueError msg
  end.
Proof.
  unfold xml_to_viewer_url.
  destruct (encode_utf8 xml_str) as [raw|e] eqn:E.
  - split.
    + revert raw E. induction xml_str as [|c t IH]; intros raw E; [reflexivity|].
      cbn [encode_utf8] in E. cbn [forallb].
      destruct (encode_codepoint c) as [bs|] eqn:Ec; [|discriminate].
      destruct (encode_utf8 t) as [rest|e']; [|discriminate].
      rewrite (IH rest eq_refl), andb_true_r.
      unfold encode_codepoint in Ec. unfold scalar.
      destruct (c <? 0x80) eqn:H1;
        [apply N.ltb_lt in H1; unfold is_surrogate;
         rewrite (proj2 (N.ltb_lt c 0x110000)) by lia;
         rewrite (proj2 (N.leb_gt 0xD800 c)) by lia; reflexivity|].
      destruct (c <? 0x800) eqn:H2;
        [apply N.ltb_lt in H2; unfold is_surrogate;
         rewrite (proj2 (N.ltb_lt c 0x110000)) by lia;
         rewrite (proj2 (N.leb_gt 0xD800 c)) by lia; reflexivity|].
      destruct (c <? 0x10000) eqn:H3.
      * apply N.ltb_lt in H3. rewrite (proj2 (N.ltb_lt c 0x110000)) by lia.
        destruct (is_surrogate c); [discriminate | reflexivity].
      * destruct (c <? 0x110000) eqn:H4; [|discriminate].
        apply N.ltb_ge in H3. unfold is_surrogate.
        rewrite (proj2 (N.leb_gt c 0xDFFF)) by lia. now rewrite andb_false_r.
    + eexists. split; [reflexivity|]. split; [apply b64encode_chars|].
      rewrite b64encode_length. now rewrite Nat.mul_comm, Nat.Div0.mod_mul.
  - split.
    + destruct (forallb scalar xml_str) eqn:Hs; [|reflexivity].
      destruct (encode_utf8_scalar xml_str Hs) as [raw Hraw]. congruence.
    + revert e E. induction xml_str as [|c t IH]; intros e E; [discriminate|].
      cbn [encode_utf8] in E.
      destruct (encode_codepoint c) as [bs|].
      * destruct (encode_utf8 t) as [rest|e']; [discriminate|].
        injection E as <-. now apply IH.
      * injection E as <-. eexists; reflexivity.
Qed.

End ViewerLink.

Lemma rstrip_char_append (ch : ascii) (u : string) :
  rstrip_char ch (u ++ String ch EmptyString) = rstrip_char ch u.
Proof.
  induction u as [|c u IH]; cbn [append rstrip_char].
  - now rewrite Ascii.eqb_refl.
  - now rewrite IH.
Qed.

(** X16. A slash at the end of the configured address of the rendering
    service makes no difference: for an address that is not empty and has
    no whitespace around it, the request goes to the same place with and
    without it. Without a configured address (unset or blank) the request
    goes to the public service. *)
Theorem kroki_address_ignores_trailing_slash :
  (forall u, u <> EmptyString -> strip u = u ->
     kroki_png_url (Some (u ++ "/")%string) = kroki_png_url (Some u)) /\
  (forall blank, strip (or_str blank "") = EmptyString ->
     kroki_png_url blank = "https://kroki.io/mermaid/png"%string).
Proof.
  split.
  - intros u Hne Hu. unfold kroki_png_url, kroki_url.
    rewrite !ProseGenFacts.or_str_some.
    assert (Hu' : strip (u ++ "/") = (u ++ "/")%string).
    { unfold strip in *.
      assert (Hl : lstrip u = u).
      { destruct u as [|c t]; [congruence|].
        cbn [lstrip] in Hu |- *. destruct (is_space c) eqn:Ec; [|reflexivity].
        exfalso. pose proof (SynthMore.lstrip_length t) as Hlen.
        assert (Hle : (String.length (rstrip (lstrip t)) <= String.length (lstrip t))%nat).
        { clear. generalize (lstrip t). intros s. induction s as [|d s IH]; [cbn; lia|].
          cbn [rstrip]. destruct (rstrip s); [destruct (is_space d)|]; cbn in *; lia. }
        rewrite Hu in Hle. cbn [String.length] in Hle. lia. }
      rewrite Hl in Hu.
      assert (Hl' : lstrip (u ++ "/") = (u ++ "/")%string).
      { destruct u as [|c t]; [congruence|].
        cbn [append lstrip]. cbn [lstrip] in Hl.
        destruct (is_space c) eqn:Ec; [|reflexivity].
        exfalso. pose proof (SynthMore.lstrip_length t) as Hlen.
        rewrite Hl in Hlen. cbn [String.length] in Hlen. lia. }
      rewrite Hl'. apply SynthFacts.rstrip_append; [reflexivity | discriminate]. }
    rewrite Hu', Hu.
    replace (truthy_str (u ++ "/")) with true by (now destruct u).
    replace (truthy_str u) with true by (destruct u; [congruence | reflexivity]).
    now rewrite (rstrip_char_append "/" u).
  - intros blank Hb. unfold kroki_png_url, kroki_url. rewrite Hb. reflexivity.
Qed.

End LinksMore.

(* ===================================================================== *)
(** * More on image normalization                                          *)
(* ===================================================================== *)

Module ImagingMore.
Import Py Imaging PngChecks ImagingFacts.

(** A box that [getbbox] gives is not empty and lies inside the band, and
    every non-zero pixel of the band lies inside the box. *)
Lemma getbbox_bounds (band : channel) (w h x0 y0 x1 y1 : nat) :
  getbbox band w h = Some (x0, y0, x1, y1) ->
  (x0 < x1 /\ x1 <= w /\ y0 < y1 /\ y1 <= h) /\
  (forall x y, x < w -> y < h -> band x y <> 0%Z ->
               x0 <= x < x1 /\ y0 <= y < y1).
Proof.
  intros E. unfold getbbox in E. cbv zeta in E.
  pose (nz := fun x y => negb (Z.eqb (band x y) 0)).
  pose (row := fun y => any_below (fun x => nz x y) w).
  pose (col := fun x => any_below (fun y => nz x y) h).
  change (match find_first col w, find_first row h, find_last col w, find_last row h with
          | Some a, Some b, Some c, Some d => Some (a, b, S c, S d)
          | _, _, _, _ => None
          end = Some (x0, y0, x1, y1)) in E.
  destruct (find_first col w) as [a|] eqn:Ea; [|discriminate].
  destruct (find_first row h) as [b|] eqn:Eb; [|discriminate].
  destruct (find_last col w) as [c|] eqn:Ec; [|discriminate].
  destruct (find_last row h) as [d|] eqn:Ed; [|discriminate].
  injection E as -> -> <- <-.
  destruct (find_first_some _ _ _ Ea) as [Ha [Hca Hamin]].
  destruct (find_first_some _ _ _ Eb) as [Hb [Hrb Hbmin]].
  destruct (find_last_some _ _ _ Ec) as [Hc [Hcc Hcmax]].
  destruct (find_last_some _ _ _ Ed) as [Hd [Hrd Hdmax]].
  assert (Hin : forall x y, x < w -> y < h -> nz x y = true ->
                            x0 <= x <= c /\ y0 <= y <= d).
  { intros x y Hx Hy Hnz.
    assert (Hcol : col x = true) by (apply any_below_true; eauto).
    assert (Hrow : row y = true) by (apply any_below_true; eauto).
    repeat split.
    - destruct (Nat.le_gt_cases x0 x) as [|H]; [assumption|].
      rewrite (Hamin x H) in Hcol. discriminate.
    - destruct (Nat.le_gt_cases x c) as [|H]; [assumption|].
      rewrite (Hcmax x H Hx) in Hcol. discriminate.
    - destruct (Nat.le_gt_cases y0 y) as [|H]; [assumption|].
      rewrite (Hbmin y H) in Hrow. discriminate.
    - destruct (Nat.le_gt_cases y d) as [|H]; [assumption|].
      rewrite (Hdmax y H Hy) in Hrow. discriminate. }
  split.
  - apply any_below_true in Hca as [ya [Hya Hnza]].
    destruct (Hin x0 ya Ha Hya Hnza) as [[_ H1] [H2 H3]]. lia.
  - intros x y Hx Hy Hnz.
    assert (Hb' : nz x y = true).
    { subst nz. cbn beta. destruct (Z.eqb_spec (band x y) 0); [contradiction | reflexivity]. }
    destruct (Hin x y Hx Hy Hb') as [[H1 H2] [H3 H4]]. lia.
Qed.

Lemma find_last_none (p : nat -> bool) (n : nat) :
  find_last p n = None -> forall j, j < n -> p j = false.
Proof.
  induction n as [|m IH]; cbn [find_last]; intros E j Hj; [lia|].
  destruct (p m) eqn:Hm; [discriminate|].
  destruct (Nat.eq_dec j m) as [->|]; [exact Hm | apply IH; [exact E | lia]].
Qed.

(** [getbbox] gives [None] only for a band that is zero all over. *)
Lemma getbbox_none (band : channel) (w h : nat) :
  getbbox band w h = None ->
  forall x y, x < w -> y < h -> band x y = 0%Z.
Proof.
  intros E x y Hx Hy. unfold getbbox in E. cbv zeta in E.
  pose (nz := fun x y => negb (Z.eqb (band x y) 0)).
  pose (row := fun y => any_below (fun x => nz x y) w).
  pose (col := fun x => any_below (fun y => nz x y) h).
  change (match find_first col w, find_first row h, find_last col w, find_last row h with
          | Some a, Some b, Some c, Some d => Some (a, b, S c, S d)
          | _, _, _, _ => None
          end = None) in E.
  destruct (Z.eqb_spec (band x y) 0) as [|Hnz]; [assumption|]. exfalso.
  assert (Hb : nz x y = true).
  { subst nz. cbn beta. destruct (Z.eqb_spec (band x y) 0); [contradiction | reflexivity]. }
  assert (Hcol : col x = true) by (apply any_below_true; eauto).
  assert (Hrow : row y = true) by (apply any_below_true; eauto).
  destruct (find_first col w) eqn:E1;
    [|rewrite (find_first_none _ _ E1 x Hx) in Hcol; discriminate].
  destruct (find_first row h) eqn:E2;
    [|rewrite (find_first_none _ _ E2 y Hy) in Hrow; discriminate].
  destruct (find_last col w) eqn:E3;
    [|rewrite (find_last_none _ _ E3 x Hx) in Hcol; discriminate].
  destruct (find_last row h) eqn:E4;
    [|rewrite (find_last_none _ _ E4 y Hy) in Hrow; discriminate].
  discriminate E.
Qed.

Section Pillow.

Variable luma : Z -> Z -> Z -> Z.
Variable blend : Z -> Z -> Z -> Z.

Abbreviation normalize := (Imaging.normalize luma blend).

Lemma crop_size (im : Image) (w h x0 y0 x1 y1 : nat) :
  (x0 < x1 /\ x1 <= w /\ y0 < y1 /\ y1 <= h) ->
  width im = w -> height im = h ->
  0 < width (crop im (x0, y0, x1, y1)) <= width im /\
  0 < height (crop im (x0, y0, x1, y1)) <= height im.
Proof. intros H <- <-. cbn [crop width height]. lia. Qed.

(** Cropping to a box inside the image and flattening keep the size within
    the size of the image, and above zero. *)
Lemma normalize_bounds (im : Image) :
  width (normalize im) <= width im /\
  height (normalize im) <= height im /\
  (0 < width im -> 0 < height im ->
   0 < width (normalize im) /\ 0 < height (normalize im)).
Proof.
  assert (H : forall m im0, mode im0 = m -> width im0 = width im -> height im0 = height im ->
     forall bbox : option box,
       (forall b, bbox = Some b ->
          let '(x0, y0, x1, y1) := b in
          x0 < x1 /\ x1 <= width im /\ y0 < y1 /\ y1 <= height im) ->
       let out := match bbox with Some b => crop im0 b | None => im0 end in
       let out := if is_rgba (mode out) then flatten blend out else out in
       width out <= width im /\ height out <= height im /\
       (0 < width im -> 0 < height im -> 0 < width out /\ 0 < height out)).
  { intros m im0 Hm Hw Hh bbox Hb.
    destruct bbox as [[[[x0 y0] x1] y1]|].
    - specialize (Hb _ eq_refl). cbv beta iota zeta in Hb. cbv zeta.
      destruct (is_rgba _); cbn [flatten crop width height mode]; lia.
    - cbv zeta. destruct (is_rgba _); cbn [flatten width height]; lia. }
  unfold Imaging.normalize.
  destruct im as [[| |] w h px]; cbn [mode is_rgba width height] in *.
  - apply (H RGB {| mode := RGB; width := w; height := h; getpixel := px |});
      try reflexivity.
    intros [[[x0 y0] x1] y1] E. unfold near_white_bbox in E. cbn [width height] in E.
    apply (proj1 (getbbox_bounds _ _ _ _ _ _ _ E)).
  - apply (H RGBA {| mode := RGBA; width := w; height := h; getpixel := px |});
      try reflexivity.
    intros [[[x0 y0] x1] y1] E.
    destruct (getbbox (alpha_channel _) w h) as [b|] eqn:Ea.
    + injection E as ->. apply (proj1 (getbbox_bounds _ _ _ _ _ _ _ Ea)).
    + unfold near_white_bbox in E. cbn [width height] in E.
      apply (proj1 (getbbox_bounds _ _ _ _ _ _ _ E)).
  - apply (H RGBA {| mode := RGBA; width := w; height := h; getpixel := px |});
      try reflexivity.
    intros [[[x0 y0] x1] y1] E.
    destruct (getbbox (alpha_channel _) w h) as [b|] eqn:Ea.
    + injection E as ->. apply (proj1 (getbbox_bounds _ _ _ _ _ _ _ Ea)).
    + unfold near_white_bbox in E. cbn [width height] in E.
      apply (proj1 (getbbox_bounds _ _ _ _ _ _ _ E)).
Qed.

(** X17. The normalization never enlarges an image and never empties it:
    the output is an RGB image no wider and no higher than the input, and
    of one pixel by one pixel at least when the input is. *)
Theorem normalize_shrinks_without_emptying (im : Image) :
  mode (normalize im) = RGB /\
  width (normalize im) <= width im /\
  height (normalize im) <= height im /\
  (0 < width im -> 0 < height im ->
   0 < width (normalize im) /\ 0 < height (normalize im)).
Proof.
  split; [apply normalize_mode|].
  destruct (normalize_bounds im) as [Hw [Hh Hpos]].
  repeat split; try assumption; now apply Hpos.
Qed.

(** X18. On an RGB image the crop throws away near-white pixels only and
    moves nothing else: every pixel of the input whose luma is 245 or less
    lies inside the box, and the output is the part of the input inside
    the box, pixel for pixel. An image that is near-white all over is
    returned as it is. *)
Theorem rgb_crop_discards_near_white_only (im : Image) :
  mode im = RGB ->
  match near_white_bbox luma im with
  | Some (x0, y0, x1, y1) =>
      (forall x y, x < width im -> y < height im ->
                   ~ near_white luma (getpixel im x y) ->
                   x0 <= x < x1 /\ y0 <= y < y1) /\
      width (normalize im) = x1 - x0 /\
      height (normalize im) = y1 - y0 /\
      (forall x y, getpixel (normalize im) x y = getpixel im (x + x0) (y + y0))
  | None =>
      normalize im = im /\
      (forall x y, x < width im -> y < height im -> near_white luma (getpixel im x y))
  end.
Proof.
  intros Hm. rewrite (normalize_rgb luma blend im Hm).
  destruct (near_white_bbox luma im) as [[[[x0 y0] x1] y1]|] eqn:E.
  - split; [|repeat split].
    intros x y Hx Hy Hnw. unfold near_white_bbox in E.
    apply (proj2 (getbbox_bounds _ _ _ _ _ _ _ E) x y Hx Hy).
    unfold invert, threshold, grayscale. unfold near_white in Hnw.
    destruct (Z.ltb_spec 245 (luma (R (getpixel im x y)) (G (getpixel im x y))
                                   (B (getpixel im x y)))); [contradiction | discriminate].
  - split; [reflexivity|]. intros x y Hx Hy.
    unfold near_white_bbox in E.
    pose proof (getbbox_none _ _ _ E x y Hx Hy) as Hz.
    unfold invert, threshold, grayscale in Hz. unfold near_white.
    destruct (Z.ltb_spec 245 (luma (R (getpixel im x y)) (G (getpixel im x y))
                                   (B (getpixel im x y)))) as [Hlt|Hge];
      [exact Hlt | discriminate Hz].
Qed.

Variable byte_length : png_bytes -> nat.




(** X20. [_valid_png] answers [None] for bytes that are no image and for
    an image under 8 pixels in width or height; otherwise it returns an RGB
    image that is not empty and no larger than the input. *)
Theorem valid_png_guarantees (png : png_bytes) :
  match _valid_png luma blend png with
  | Some out =>
      exists im out_im,
        png = Png im /\ out = Png out_im /\
        8 <= width im /\ 8 <= height im /\
        mode out_im = RGB /\
        0 < width out_im <= width im /\
        0 < height out_im <= height im
  | None =>
      match png with
      | Png im => width im < 8 \/ height im < 8
      | NotAnImage _ => True
      end
  end.
Proof.
  unfold _valid_png. destruct png as [im|raw]; [|exact I].
  destruct (Nat.ltb_spec (width im) 8) as [|Hw]; [now left|].
  destruct (Nat.ltb_spec (height im) 8) as [|Hh]; [now right|].
  cbn [orb _auto_crop_png_whitespace].
  exists im, (normalize im). repeat split; try assumption.
  - apply normalize_mode.
  - apply (normalize_bounds im); lia.
  - apply (normalize_bounds im).
  - apply (normalize_bounds im); lia.
  - apply (normalize_bounds im).
Qed.

End Pillow.

Lemma rgb_crop_discards_near_white_only_witness :
  match near_white_bbox pillow_luma framed_dot with
  | Some (x0, y0, x1, y1) =>
      (forall x y, x < width framed_dot -> y < height framed_dot ->
                   ~ near_white pillow_luma (getpixel framed_dot x y) ->
                   x0 <= x < x1 /\ y0 <= y < y1) /\
      width (Imaging.normalize pillow_luma pillow_blend framed_dot) = x1 - x0 /\
      height (Imaging.normalize pillow_luma pillow_blend framed_dot) = y1 - y0 /\
      (forall x y, getpixel (Imaging.normalize pillow_luma pillow_blend framed_dot) x y
                   = getpixel framed_dot (x + x0) (y + y0))
  | None =>
      Imaging.normalize pillow_luma pillow_blend framed_dot = framed_dot /\
      (forall x y, x < width framed_dot -> y < height framed_dot ->
                   near_white pillow_luma (getpixel framed_dot x y))
  end.
Proof.
  apply (rgb_crop_discards_near_white_only pillow_luma pillow_blend framed_dot).
  reflexivity.
Defined.

Example boxed_square_required :
  option_map size
    (match _require_valid_png pillow_luma pillow_blend (fun _ => 2000) (Png boxed_square) with
     | Ok out => Some out
     | Raise _ => None
     end) = Some (Some (52, 52)).
Proof. vm_compute. reflexivity. Qed.

End ImagingMore.

(* ===================================================================== *)
(** * More on prose generation                                             *)
(* ===================================================================== *)

Module ProseGenMore.
Import Py Text ProseGen MoreWorlds.

Lemma filter_none {A} (f : A -> bool) (l : list A) :
  (forall x, In x l -> f x = false) -> filter f l = [].
Proof.
  induction l as [|x l IH]; intros H; [reflexivity|]. cbn [filter].
  rewrite (H x (or_introl eq_refl)). apply IH. intros y Hy. apply H. now right.
Qed.

(** X21. A PDF that has pages but no text on any of them (a scan) does not
    stop the summaries: both calls are still submitted, and the document
    text they carry is empty. *)
Theorem textless_pdf_still_calls
    (env : Env) (order : list nat) (pool : list Submission)
    (pdf_path client_name project_name : string) (pages : list Page) :
  pdf_to_images_and_text env pdf_path = Ok pages ->
  pages <> [] ->
  (forall p, In p pages -> strip (text p) = EmptyString) ->
  Permutation [0; 1] order ->
  exists sub,
    fn sub = _groq_exec_summary_call /\
    pdf_text sub = Some EmptyString /\
    snd (generate_exec_summaries_concurrent env order pdf_path client_name
           project_name pool) = pool ++ [sub; sub].
Proof.
  intros Hpdf Hne Hblank Hperm.
  unfold generate_exec_summaries_concurrent, bind at 1, try_except, bind at 1.
  rewrite Hpdf. destruct pages as [|pg pages]; [congruence|].
  cbn [truthy_list negb ret].
  rewrite filter_none
    by (intros p Hp; now rewrite (Hblank p Hp)).
  cbn [map join]. eexists. split; [|split]; [| |rewrite ProseGenFacts.two_candidates_run
                                                  by exact Hperm; reflexivity];
    reflexivity.
Qed.

Lemma textless_pdf_still_calls_witness :
  exists sub,
    fn sub = _groq_exec_summary_call /\
    pdf_text sub = Some EmptyString /\
    snd (generate_exec_summaries_concurrent env_scanned_pdf [0; 1] "scan.pdf"
           "ACME" "Sorter" []) = [] ++ [sub; sub].
Proof.
  apply (textless_pdf_still_calls env_scanned_pdf [0; 1] [] "scan.pdf" "ACME" "Sorter"
           [{| text := ""; image_b64 := "iVBOR" |};
            {| text := "   "; image_b64 := "iVBOR" |}]).
  - reflexivity.
  - discriminate.
  - intros p [<- | [<- | []]]; reflexivity.
  - apply Permutation_refl.
Defined.

End ProseGenMore.

(* ===================================================================== *)
(** * More on style-class inference                                        *)
(* ===================================================================== *)

Module InferClassMore.
Import Text TextFacts InferClass.

Lemma lower_append (a b : string) : lower (a ++ b) = (lower a ++ lower b)%string.
Proof. induction a as [|c a IH]; cbn [append lower]; [reflexivity | now rewrite IH]. Qed.

Lemma substring_lower (a b : string) : Substring a b -> Substring (lower a) (lower b).
Proof.
  intros [pre [post ->]]. exists (lower pre), (lower post).
  now rewrite !lower_append.
Qed.

Lemma substring_trans (a b c : string) : Substring a b -> Substring b c -> Substring a c.
Proof.
  intros [p1 [q1 ->]] [p2 [q2 ->]]. exists (p2 ++ p1)%string, (q1 ++ q2)%string.
  now rewrite !SynthFacts.append_assoc.
Qed.

Lemma any_in_grows (ks : list string) (a b : string) :
  Substring a b -> any_in ks a = true -> any_in ks b = true.
Proof.
  intros Hab H. apply any_in_iff in H as [k [Hk Hs]]. apply any_in_iff.
  exists k. split; [exact Hk | exact (substring_trans _ _ _ Hs Hab)].
Qed.

(** X22. Adding text to a label can only move it up the priority list: a
    label that contains a label classified "reject" is classified "reject",
    and every label contained in a label classified "sub" is classified
    "sub". *)
Theorem infer_class_under_extension (a b : string) :
  Substring a b ->
  (_infer_class a = "reject" -> _infer_class b = "reject") /\
  (_infer_class b = "sub" -> _infer_class a = "sub").
Proof.
  intros Hab. apply substring_lower in Hab.
  unfold _infer_class.
  pose proof (any_in_grows reject_keywords _ _ Hab) as Hr.
  pose proof (any_in_grows accept_keywords _ _ Hab) as Ha.
  pose proof (any_in_grows main_keywords _ _ Hab) as Hm.
  destruct (any_in reject_keywords (lower a)), (any_in reject_keywords (lower b)),
    (any_in accept_keywords (lower a)), (any_in accept_keywords (lower b)),
    (any_in main_keywords (lower a)), (any_in main_keywords (lower b));
    split; intros H; try reflexivity; try discriminate H;
    first [ discriminate (Hr eq_refl) | discriminate (Ha eq_refl) | discriminate (Hm eq_refl) ].
Qed.

Lemma infer_class_under_extension_witness :
  (_infer_class "Reject" = "reject" -> _infer_class "Manual Reject Bin" = "reject") /\
  (_infer_class "Manual Reject Bin" = "sub" -> _infer_class "Reject" = "sub").
Proof.
  apply (infer_class_under_extension "Reject" "Manual Reject Bin").
  exists "Manual ", " Bin". reflexivity.
Defined.

End InferClassMore.

(* ===================================================================== *)
(** * Inline bold                                                          *)
(* ===================================================================== *)

Module RunsMore.
Import Py Text Runs.

Lemma after_prefix_spec (p s r : string) :
  after_prefix p s = Some r -> s = (p ++ r)%string.
Proof.
  revert s. induction p as [|c p IH]; intros s H; cbn in H.
  - now injection H as ->.
  - destruct s as [|d s]; [discriminate|].
    destruct (Ascii.eqb c d) eqn:E; [|discriminate].
    apply Ascii.eqb_eq in E as ->. cbn. f_equal. now apply IH.
Qed.

Lemma lazy_group_spec (r inner rest : string) :
  lazy_group r = Some (inner, rest) ->
  r = (inner ++ "**" ++ rest)%string /\ inner <> EmptyString /\
  ~ In newline (list_ascii_of_string inner).
Proof.
  revert inner rest. induction r as [|c r IH]; intros inner rest H; cbn [lazy_group] in H.
  - discriminate.
  - destruct (Ascii.eqb c newline) eqn:Ec; [discriminate|].
    apply Ascii.eqb_neq in Ec.
    destruct (after_prefix "**" r) as [rest'|] eqn:Ea.
    + injection H as <- <-. apply after_prefix_spec in Ea as ->.
      split; [reflexivity|]. split; [discriminate|].
      cbn. intros [E | []]. now apply Ec.
    + destruct (lazy_group r) as [[inner' rest']|] eqn:El; [|discriminate].
      injection H as <- <-. destruct (IH _ _ eq_refl) as [-> [_ Hn]].
      split; [reflexivity|]. split; [discriminate|].
      cbn. intros [E | Hin]; [now apply Ec | now apply Hn].
Qed.

Lemma bold_here_spec (s inner rest : string) :
  bold_here s = Some (inner, rest) ->
  s = ("**" ++ inner ++ "**" ++ rest)%string /\ inner <> EmptyString /\
  ~ In newline (list_ascii_of_string inner).
Proof.
  unfold bold_here. intros H.
  destruct (after_prefix "**" s) as [r|] eqn:Ea; [|discriminate].
  apply after_prefix_spec in Ea as ->.
  apply lazy_group_spec in H as [-> [Hne Hn]]. now repeat split.
Qed.

Lemma written_all_app (a b : list TextRun) :
  written_all (a ++ b) = (written_all a ++ written_all b)%string.
Proof.
  induction a as [|r a IH]; cbn [app written_all]; [reflexivity|].
  now rewrite IH, SynthFacts.append_assoc.
Qed.

Lemma append_empty_r (s : string) : (s ++ "")%string = s.
Proof. induction s as [|c s IH]; cbn; [reflexivity | now rewrite IH]. Qed.

Lemma written_add_plain (i : bool) (f : string) (n : nat) (pre : string) :
  written_all (add_plain i f n pre) = pre.
Proof.
  unfold add_plain. destruct pre as [|c pre]; cbn; [reflexivity|].
  now rewrite append_empty_r.
Qed.

Lemma scan_written (i : bool) (f : string) (n : nat) (fuel : nat) :
  forall s pre, written_all (scan i f n fuel s pre) = (pre ++ s)%string.
Proof.
  induction fuel as [|fuel IH]; intros s pre; cbn [scan].
  - apply written_add_plain.
  - destruct (bold_here s) as [[inner rest]|] eqn:Eb.
    + apply bold_here_spec in Eb as [-> _].
      rewrite written_all_app, written_add_plain. cbn [written_all].
      rewrite IH. unfold written. cbn [bold bold_run run_text].
      cbn [append]. now rewrite !SynthFacts.append_assoc.
    + destruct s as [|c s].
      * now rewrite written_add_plain, append_empty_r.
      * rewrite IH. now rewrite SynthFacts.append_assoc.
Qed.

Lemma add_plain_well_formed (i : bool) (f : string) (n : nat) (pre : string) :
  Forall (well_formed i f n) (add_plain i f n pre).
Proof.
  unfold add_plain. destruct pre as [|c pre]; cbn; constructor; [|constructor].
  repeat split; cbn; [discriminate | now left].
Qed.

Lemma scan_well_formed (i : bool) (f : string) (n : nat) (fuel : nat) :
  forall s pre, Forall (well_formed i f n) (scan i f n fuel s pre).
Proof.
  induction fuel as [|fuel IH]; intros s pre; cbn [scan].
  - apply add_plain_well_formed.
  - destruct (bold_here s) as [[inner rest]|] eqn:Eb.
    + apply bold_here_spec in Eb as [_ [Hne Hn]].
      apply Forall_app. split; [apply add_plain_well_formed|].
      constructor; [|apply IH].
      repeat split; cbn; [exact Hne | right; now split].
    + destruct s as [|c s]; [apply add_plain_well_formed | apply IH].
Qed.

(** The bound on the positions tried is never reached: any larger bound
    gives the same runs. *)
Lemma bold_here_shorter (s inner rest : string) :
  bold_here s = Some (inner, rest) -> String.length rest < String.length s.
Proof.
  intros H. apply bold_here_spec in H as [-> _].
  cbn [append String.length]. rewrite !SynthFacts.length_append.
  cbn [String.length]. lia.
Qed.

Lemma scan_fuel (i : bool) (f : string) (n : nat) (fuel fuel' : nat) :
  forall s pre,
    String.length s < fuel -> String.length s < fuel' ->
    scan i f n fuel s pre = scan i f n fuel' s pre.
Proof.
  revert fuel'. induction fuel as [|fuel IH]; intros fuel' s pre H H'; [lia|].
  destruct fuel' as [|fuel']; [lia|]. cbn [scan].
  destruct (bold_here s) as [[inner rest]|] eqn:Eb.
  - apply bold_here_shorter in Eb. f_equal. f_equal. apply IH; lia.
  - destruct s as [|c s]; [reflexivity|]. cbn [String.length] in H, H'.
    apply IH; lia.
Qed.

(** X23. The runs of a paragraph lose nothing of its text: written back
    with the two asterisks around each bold run they give the text again.
    No run is empty, every run carries the requested font, size and italic
    setting, and a bold run never spans a line break. *)
Theorem runs_round_trip (i : bool) (f : string) (n : nat) (text : string) :
  written_all (add_runs_from_text i f n text) = text /\
  Forall (well_formed i f n) (add_runs_from_text i f n text).
Proof.
  unfold add_runs_from_text. split.
  - now rewrite scan_written.
  - apply scan_well_formed.
Qed.

End RunsMore.
